(** * eleventy-img: the derivation pipeline of [img.js]

    A shallow embedding of the width/format policy ([Image.getValidWidths],
    [Image.getFormatsArray]), the content hasher ([Image.getHash]), the stat
    assembler ([Image.getStat], [ImagePath]), the plan builder
    ([Image.getFullStats], [Image._transformRawFiles]), the materialisation
    loop ([Image.resize]) and the de-duplicating entry point ([queueImage]).

    JavaScript values are a first-order datatype, objects are association
    lists in insertion order, exceptions are the [Throw] branch of a result
    type. The built-ins and libraries the module calls are the fields of
    two records: [Builtins] for the pure ones, [World] for the file system,
    the remote cache, the codec engine and the hooks, whose calls are
    logged as events. A promise is the value it settles to. *)

From Stdlib Require Import ZArith QArith Qround String Ascii List Bool Lia Sorted.
From Stdlib Require Import DecimalString Permutation.
From Stdlib Require OrderedTypeEx.
From stdpp Require Import base strings gmap.
Import ListNotations.

Local Set Warnings "-register-all".
Local Open Scope string_scope.
Local Open Scope list_scope.
Local Open Scope Z_scope.

(** ** JavaScript values *)

Inductive jsval : Type :=
| VUndef
| VNull
| VBool (b : bool)
| VNum (q : Q)
| VStr (s : string)
| VBuf (bytes : string)
| VFun (f : nat)
| VArr (items : list jsval)
| VObj (props : list (string * jsval)).

(** [if (v)], [!v], [a || b]: the falsy values are [undefined], [null],
    [false], [0] and the empty string. *)
Definition truthy (v : jsval) : bool :=
  match v with
  | VUndef | VNull => false
  | VBool b => b
  | VNum q => negb (Qeq_bool q 0)
  | VStr s => negb (String.eqb s "")
  | VBuf _ | VFun _ | VArr _ | VObj _ => true
  end.

Definition is_true (v : jsval) : bool :=
  match v with VBool true => true | _ => false end.

Definition is_str (v : jsval) (s : string) : bool :=
  match v with VStr t => String.eqb t s | _ => false end.

(** ** Arrays: [sort] with a comparator, [new Set] *)

Section ArrayOps.
Context {A : Type}.

(** [Array.prototype.sort(cmp)] is stable; an element goes before the
    first later one it does not compare greater than. *)
Fixpoint sort_insert (cmp : A -> A -> Z) (x : A) (l : list A) : list A :=
  match l with
  | [] => [x]
  | y :: l' => if (cmp x y <=? 0)%Z then x :: l else y :: sort_insert cmp x l'
  end.

Definition js_sort (cmp : A -> A -> Z) (l : list A) : list A :=
  fold_right (sort_insert cmp) [] l.

(** [[...new Set(l)]]: first occurrences, in order. *)
Definition set_add (eqb : A -> A -> bool) (acc : list A) (x : A) : list A :=
  if existsb (eqb x) acc then acc else acc ++ [x].

Definition js_set (eqb : A -> A -> bool) (l : list A) : list A :=
  fold_left (set_add eqb) l [].
End ArrayOps.

Definition str_cmp (a b : string) : Z :=
  match String.compare a b with Lt => -1 | Eq => 0 | Gt => 1 end.

(** ** Width policy: [Image.getValidWidths] *)

(** An entry of [widths]: [null], ["auto"] or an integer. *)
Inductive width_req : Type :=
| WNull
| WAuto
| WNum (n : Z).

(** [!width || width === 'auto' ? originalWidth : width], then
    [parseInt(_, 10)], the identity on an integer. *)
Definition width_or_original (originalWidth : Z) (w : width_req) : Z :=
  match w with
  | WNull | WAuto => originalWidth
  | WNum n => if n =? 0 then originalWidth else n
  end.

(** The [map] callback of the no-upscale branch with its captured flag
    [lastWidthWasBigEnough]. [minimumThreshold] is an exact rational: the
    double product [width * minimumThreshold] is exact for the dyadic
    thresholds (1, 1.25, 1.5, ...) and the pixel widths in use. *)
Fixpoint clampWidths (originalWidth : Z) (minimumThreshold : Q)
    (lastWidthWasBigEnough : bool) (ws : list Z) : list Z :=
  match ws with
  | [] => []
  | width :: rest =>
      if width >? originalWidth then
        (if lastWidthWasBigEnough then originalWidth else -1)
          :: clampWidths originalWidth minimumThreshold lastWidthWasBigEnough rest
      else
        width :: clampWidths originalWidth minimumThreshold
                   (originalWidth >? Qfloor (inject_Z width * minimumThreshold)) rest
  end.

Definition num_cmp (a b : Z) : Z := a - b.

Definition getValidWidths (originalWidth : Z) (widths : list width_req)
    (allowUpscale : bool) (minimumThreshold : Q) : list Z :=
  let valid := map (width_or_original originalWidth) widths in
  let valid :=
    if negb allowUpscale then
      List.filter (fun width => width >? 0)
        (clampWidths originalWidth minimumThreshold true (js_sort num_cmp valid))
    else valid in
  let valid := js_set Z.eqb valid in
  js_sort num_cmp valid.

(** ** Format policy: [Image.getFormatsArray] *)

Definition FORMAT_ALIASES (format : string) : option string :=
  if String.eqb format "jpg" then Some "jpeg"
  else if String.eqb format "svg+xml" then Some "svg"
  else None.

(** The [formats] argument: absent, a comma-separated string or an array
    whose entries are strings or [null] ([None]). *)
Inductive formats_arg : Type :=
| FormatsNone
| FormatsString (s : string)
| FormatsArray (l : list (option string)).

Fixpoint split_on (sep : ascii) (cur : string) (s : string) : list string :=
  match s with
  | EmptyString => [cur]
  | String c s' =>
      if Ascii.eqb c sep then cur :: split_on sep "" s'
      else split_on sep (String.append cur (String c "")) s'
  end.

Definition split_comma (s : string) : list string := split_on ","%char "" s.

Definition str_truthy (o : option string) : bool :=
  match o with Some s => negb (String.eqb s "") | None => false end.

Definition opt_str_eqb (a b : option string) : bool :=
  match a, b with
  | Some x, Some y => String.eqb x y
  | None, None => true
  | _, _ => false
  end.

Definition is_fmt (o : option string) (s : string) : bool := opt_str_eqb o (Some s).

Definition resolve_format (autoFormat : option string) (format : option string)
    : option string :=
  let format :=
    if str_truthy autoFormat then
      if negb (str_truthy format) || is_fmt format "auto" then autoFormat else format
    else format in
  match format with
  | Some f => match FORMAT_ALIASES f with Some a => Some a | None => format end
  | None => format
  end.

(** The comparator that moves ["svg"] to the front. *)
Definition svg_first (a b : option string) : Z :=
  if is_fmt a "svg" then -1 else if is_fmt b "svg" then 1 else 0.

Definition getFormatsArray (formats : formats_arg) (autoFormat : option string)
    (svgShortCircuit : jsval) : list (option string) :=
  let entries :=
    match formats with
    | FormatsNone => []
    | FormatsString s => if String.eqb s "" then [] else map Some (split_comma s)
    | FormatsArray l => l
    end in
  match entries with
  | [] => []
  | _ =>
      let formats := map (resolve_format autoFormat) entries in
      let formats :=
        if negb (is_str svgShortCircuit "size") then js_sort svg_first formats
        else formats in
      js_set opt_str_eqb formats
  end.

(** ** Objects as insertion-ordered association lists

    Own properties are enumerated in the order they were added, which is
    what JavaScript does for keys that are not array indices; the option
    names and formats of this module are not. *)

Section Obj.
Context {V : Type}.

Fixpoint obj_get (k : string) (o : list (string * V)) : option V :=
  match o with
  | [] => None
  | (k', v) :: o' => if String.eqb k' k then Some v else obj_get k o'
  end.

(** [o[k] = v]: an existing key keeps its place, a new one goes last. *)
Fixpoint obj_set (k : string) (v : V) (o : list (string * V)) : list (string * V) :=
  match o with
  | [] => [(k, v)]
  | (k', v') :: o' => if String.eqb k' k then (k, v) :: o' else (k', v') :: obj_set k v o'
  end.

Definition obj_keys (o : list (string * V)) : list string := map fst o.
End Obj.

(** ** Stats and the plan grouped by format *)

Record Stat : Type := mkStat {
  format : string;
  width : Z;
  height : Z;
  url : jsval;
  sourceType : option string;
  srcset : string;
  size : option Z;
  filename : option string;
  outputPath : option string;
  buffer : option jsval
}.

(** [byType]: format name to the stats of that format. *)
Definition plan : Type := list (string * list Stat).

Definition width_cmp (a b : Stat) : Z := width a - width b.

(** [entry.size > svgSize]; an absent size compares false. *)
Definition exceeds (svgSize : Z) (entry : Stat) : bool :=
  match size entry with Some n => n >? svgSize | None => false end.

(** The [map] callback of the "size" filter with its two captured flags;
    [None] is the [false] that the following [filter] drops. *)
Fixpoint filterLarge (svg0 : Stat) (svgSize : Z) (svgAdded originalFormatKept : bool)
    (entries : list Stat) : list (option Stat) :=
  match entries with
  | [] => []
  | entry :: rest =>
      if exceeds svgSize entry then
        if negb svgAdded then
          (if originalFormatKept then Some svg0 else None)
            :: filterLarge svg0 svgSize true originalFormatKept rest
        else None :: filterLarge svg0 svgSize svgAdded originalFormatKept rest
      else Some entry :: filterLarge svg0 svgSize svgAdded true rest
  end.

Definition keep_truthy {A : Type} (l : list (option A)) : list A :=
  flat_map (fun o => match o with Some x => [x] | None => [] end) l.

Definition filterGroup (svg0 : Stat) (svgSize : Z) (entries : list Stat) : list Stat :=
  keep_truthy (filterLarge svg0 svgSize false false entries).

Definition init_groups (formats : list (option string)) : plan :=
  fold_left (fun byType fmt =>
               match fmt with
               | Some f =>
                   if negb (String.eqb f "") && negb (String.eqb f "auto")
                   then obj_set f [] byType else byType
               | None => byType
               end) formats [].

Definition push_file (byType : plan) (file : Stat) : plan :=
  let group := match obj_get (format file) byType with Some g => g | None => [] end in
  obj_set (format file) (group ++ [file]) byType.

Definition sort_groups (byType : plan) : plan :=
  map (fun '(type, group) => (type, js_sort width_cmp group)) byType.

(** [svgEntry && svgEntry.length && svgEntry[0].size], when truthy, with
    the entry it was read from. *)
Definition svg_entry_size (byType : plan) : option (Stat * Z) :=
  match obj_get "svg" byType with
  | Some (svg0 :: _) =>
      match size svg0 with
      | Some n => if n =? 0 then None else Some (svg0, n)
      | None => None
      end
  | _ => None
  end.

Definition _transformRawFiles (svgShortCircuit : jsval) (files : list Stat)
    (formats : list (option string)) : plan :=
  let byType := sort_groups (fold_left push_file files (init_groups formats)) in
  let filterLargeRasterImages := is_str svgShortCircuit "size" in
  match svg_entry_size byType with
  | Some (svg0, svgSize) =>
      if filterLargeRasterImages then
        map (fun '(type, group) =>
               if String.eqb type "svg" then (type, group)
               else (type, filterGroup svg0 svgSize group)) byType
      else byType
  | None => byType
  end.

(** ** Exceptions, events and the monad of the methods of [Image] *)

Inductive error : Type :=
| ESrcRequired          (* "`src` is a required argument ..." *)
| EStatsSyncRemote      (* "`statsSync` is not supported with remote sources ..." *)
| EAutoFormat           (* "... `formats: [null | auto]` ... is not supported." *)
| ERemoteMetadata       (* "When using `statsOnly` and remote images, you must supply ..." *)
| EFileSystem (path : string)   (* a failing [fs] call *)
| EType                 (* a TypeError of a built-in given the wrong kind of value *)
| ECollaborator (what : string) (* fetch, image-size, codec or hook failure *)
| EUnmodelled.          (* an option value outside the fragment embedded here *)

Inductive result (A : Type) : Type :=
| Ok (a : A)
| Throw (e : error).
Arguments Ok {A} a.
Arguments Throw {A} e.

(** The source image: a string (file path or URL) or a [Buffer]. *)
Inductive source : Type :=
| SrcString (s : string)
| SrcBuffer (bytes : string).

(** The chain of calls made on one [sharpImage.clone()]. *)
Record sharp_ops : Type := mkOps {
  op_hook : option nat;                (* [sharpHook] *)
  op_rotate : bool;                    (* [rotate()] *)
  op_resize : option (Z * bool);       (* [resize({width, withoutEnlargement})] *)
  op_toFormat : option (string * jsval)  (* [toFormat(format, options)] *)
}.

(** Calls that leave the module. *)
Inductive event : Type :=
| EvExists (path : string)                                (* fs.existsSync *)
| EvReadFile (path : string)                              (* fs.readFileSync *)
| EvStat (path : string)                                  (* fs.statSync *)
| EvMkdir (dir : string)                                  (* fsp.mkdir *)
| EvWriteFile (path : string) (data : jsval)              (* fsp.writeFile *)
| EvFetch (url : string)                                  (* assetCache.fetch *)
| EvImageSize (input : source)                            (* getImageSize *)
| EvSharpMetadata (input : source)                        (* sharp(input).metadata() *)
| EvSharpToFile (ops : sharp_ops) (path : string)         (* sharpInstance.toFile *)
| EvSharpToBuffer (ops : sharp_ops)                       (* sharpInstance.toBuffer *)
| EvFormatHook (f : nat) (ops : sharp_ops)                (* formatHooks[format].call *)
| EvBrotliSize.                                           (* brotliSize.sync *)

(** What the codec probe reports. *)
Record Metadata : Type := mkMetadata {
  m_width : Z;
  m_height : Z;
  m_format : option string;
  m_orientation : option Z;
  m_pageHeight : option Z;
  m_size : option Z
}.

(** The world outside: the file system as found, the remote cache, the
    dimension probe, the codec engine, the format hooks (they are handed
    the codec handle) and the size estimator. Reads see this snapshot;
    writes are events. *)
Record World : Type := mkWorld {
  fs_existsSync : string -> bool;
  fs_readFileSync : string -> option string;
  fs_statSync_size : string -> option Z;
  isCacheValid : string -> list (string * jsval) -> bool;
  assetCache_fetch : string -> list (string * jsval) -> result string;
  fsp_mkdir : string -> result unit;
  fsp_writeFile : string -> jsval -> result unit;
  getImageSize : source -> result (Z * Z * option string);
  formatHook_call : nat -> Stat -> source -> sharp_ops -> result jsval;
  sharp_metadata : source -> list (string * jsval) -> result Metadata;
  sharp_toFile : source -> list (string * jsval) -> sharp_ops -> string -> result Z;
  sharp_toBuffer : source -> list (string * jsval) -> sharp_ops -> result (string * Z);
  brotliSize_sync : jsval -> result Z
}.

(** An [Image] instance. [assetCache] is determined by [src] and
    [cacheOptions], both set exactly when the source is a remote URL. *)
Record Image : Type := mkImage {
  src : source;
  isRemoteUrl : bool;
  options : list (string * jsval);
  cacheOptions : option (list (string * jsval));
  computedHash : option string;
  _contents : option string
}.

Record state : Type := mkState {
  self : Image;
  log : list event
}.

(** A method body: it may update [this], logs its outside calls, and
    returns or throws. *)
Definition M (A : Type) : Type := state -> result A * state.

Definition ret {A : Type} (a : A) : M A := fun s => (Ok a, s).
Definition throw {A : Type} (e : error) : M A := fun s => (Throw e, s).
Definition bind {A B : Type} (m : M A) (k : A -> M B) : M B :=
  fun s => match m s with
           | (Ok a, s') => k a s'
           | (Throw e, s') => (Throw e, s')
           end.
Definition emit (e : event) : M unit :=
  fun s => (Ok tt, mkState (self s) (log s ++ [e])).
Definition this : M Image := fun s => (Ok (self s), s).
Definition set_this (img : Image) : M unit := fun s => (Ok tt, mkState img (log s)).
Definition lift {A : Type} (r : result A) : M A := fun s => (r, s).

Notation "'do' x <- m ; k" := (bind m (fun x => k))
  (at level 10, x name, m at level 100, k at level 200).
Notation "'run' m ; k" := (bind m (fun _ => k))
  (at level 10, m at level 100, k at level 200).

Fixpoint mapM {A B : Type} (f : A -> M B) (l : list A) : M (list B) :=
  match l with
  | [] => ret []
  | x :: l' => do y <- f x; do ys <- mapM f l'; ret (y :: ys)
  end.

(** ** Strings *)

Definition is_space (c : ascii) : bool :=
  let n := nat_of_ascii c in
  ((9 <=? n) && (n <=? 13))%nat || (n =? 32)%nat.

Fixpoint trim_start (s : string) : string :=
  match s with
  | String c s' => if is_space c then trim_start s' else s
  | EmptyString => s
  end.

Fixpoint trim_end (s : string) : string :=
  match s with
  | String c s' =>
      match trim_end s' with
      | EmptyString => if is_space c then "" else String c ""
      | t => String c t
      end
  | EmptyString => s
  end.

(** [String.prototype.trim], on the ASCII white space. *)
Definition trim (s : string) : string := trim_end (trim_start s).

Fixpoint map_chars (f : ascii -> string) (s : string) : string :=
  match s with
  | String c s' => f c +:+ map_chars f s'
  | EmptyString => ""
  end.

(** [str.replace(/\r|\n/g, '')] *)
Definition strip_newlines (s : string) : string :=
  map_chars (fun c => if (nat_of_ascii c =? 13)%nat || (nat_of_ascii c =? 10)%nat
                      then "" else String c "") s.

(** [.replace(/=/g, "").replace(/\+/g, "-").replace(/\//g, "_")] *)
Definition url_safe (s : string) : string :=
  map_chars (fun c => if Ascii.eqb c "="%char then ""
                      else if Ascii.eqb c "+"%char then "-"
                      else if Ascii.eqb c "/"%char then "_"
                      else String c "") s.

(** [parseInt] of a number and [substring]'s clamping: towards zero. *)
Definition trunc (q : Q) : Z := Z.quot (Qnum q) (Zpos (Qden q)).

Definition num (n : Z) : jsval := VNum (inject_Z n).

(** ** Option bags *)

Definition obj : Type := list (string * jsval).

(** [Object.assign(target, source)] *)
Definition obj_assign (target source : obj) : obj :=
  fold_left (fun o kv => obj_set (fst kv) (snd kv) o) source target.

(** [o[k]], [undefined] when absent. *)
Definition prop (k : string) (o : obj) : jsval :=
  match obj_get k o with Some v => v | None => VUndef end.

(** [v[k]] on a value that should be an object. *)
Definition member (v : jsval) (k : string) : jsval :=
  match v with VObj props => prop k props | _ => VUndef end.

(** [Util.getSortedObject] on the properties of an object literal. *)
Definition getSortedObject (unordered : obj) : obj :=
  let keys := js_sort str_cmp (obj_keys unordered) in
  fold_left (fun o key => obj_set key (prop key unordered) o) keys [].

Definition keysToKeep : list string :=
  js_sort str_cmp
    ["sharpOptions"; "sharpWebpOptions"; "sharpPngOptions"; "sharpJpegOptions";
     "sharpAvifOptions"].

Definition MIME_TYPES (fmt : string) : option string :=
  if String.eqb fmt "jpeg" then Some "image/jpeg"
  else if String.eqb fmt "webp" then Some "image/webp"
  else if String.eqb fmt "png" then Some "image/png"
  else if String.eqb fmt "svg" then Some "image/svg+xml"
  else if String.eqb fmt "avif" then Some "image/avif"
  else if String.eqb fmt "gif" then Some "image/gif"
  else None.

(** [this.options.widths] as the entries [getValidWidths] understands;
    the parameter default [[]] stands in for [undefined]. *)
Definition width_req_of (v : jsval) : option width_req :=
  match v with
  | VStr s => if String.eqb s "auto" then Some WAuto
              else if String.eqb s "" then Some WNull else None
  | VNum q => if Z.eqb (Zpos (Qden (Qred q))) 1 then Some (WNum (Qnum (Qred q))) else None
  | VUndef | VNull | VBool false => Some WNull
  | _ => None
  end.

Fixpoint all_some {A : Type} (l : list (option A)) : option (list A) :=
  match l with
  | [] => Some []
  | Some x :: l' => match all_some l' with Some xs => Some (x :: xs) | None => None end
  | None :: _ => None
  end.

Definition widths_of (v : jsval) : option (list width_req) :=
  match v with
  | VUndef => Some []
  | VArr items => all_some (map width_req_of items)
  | _ => None
  end.

(** [this.options.formats] as the argument of [getFormatsArray]. *)
Definition format_req_of (v : jsval) : option (option string) :=
  match v with
  | VStr s => Some (Some s)
  | VNull | VUndef => Some None
  | _ => None
  end.

Definition formats_of (v : jsval) : option formats_arg :=
  match v with
  | VUndef | VNull => Some FormatsNone
  | VStr s => Some (FormatsString s)
  | VArr items =>
      match all_some (map format_req_of items) with
      | Some l => Some (FormatsArray l)
      | None => None
      end
  | _ => None
  end.

(** A string-or-falsy option such as [overrideInputFormat]. *)
Definition str_of (v : jsval) : option string :=
  match v with VStr s => Some s | _ => None end.

(** ** The module, over the built-ins and libraries it calls *)

(** [Number.prototype.toString], the quoting of [JSON.stringify], the
    digest of [crypto.createHash("sha256")] in base64, the protocol of
    [new URL(url)] ([None] when the constructor throws), [path.join],
    [path.dirname], [p.split(path.sep).join("/")], [String(v)] on a
    non-string, the application of a function value, and the function
    exported by [./src/format-hooks/svg.js]. *)
Record Builtins : Type := mkBuiltins {
  Number_toString : Q -> string;
  JSON_quote : string -> string;
  createHash_sha256_base64 : string -> string;
  URL_protocol : string -> option string;
  path_join_ : string -> string -> string;
  path_dirname_ : string -> string;
  path_sep_to_slash : string -> string;
  String_ : jsval -> string;
  Function_call : nat -> list jsval -> jsval;
  svgHook_ : nat
}.

Section Img.
Variable B : Builtins.
Local Abbreviation num_to_string := (Number_toString B).
Local Abbreviation json_quote := (JSON_quote B).
Local Abbreviation sha256_base64 := (createHash_sha256_base64 B).
Local Abbreviation url_protocol := (URL_protocol B).
Local Abbreviation path_join := (path_join_ B).
Local Abbreviation path_dirname := (path_dirname_ B).
Local Abbreviation path_to_url := (path_sep_to_slash B).
Local Abbreviation to_string := (String_ B).
Local Abbreviation call := (Function_call B).
Local Abbreviation svgHook := (svgHook_ B).

Definition globalOptions : obj :=
  [ ("widths", VArr [VNull]);
    ("formats", VArr [VStr "webp"; VStr "jpeg"]);
    ("concurrency", num 10);
    ("urlPath", VStr "/img/");
    ("outputDir", VStr "img/");
    ("svgShortCircuit", VBool false);
    ("svgAllowUpscale", VBool true);
    ("svgCompressionSize", VStr "");
    ("sharpOptions", VObj []);
    ("sharpWebpOptions", VObj []);
    ("sharpPngOptions", VObj []);
    ("sharpJpegOptions", VObj []);
    ("sharpAvifOptions", VObj []);
    ("sharpHook", VNull);
    ("extensions", VObj []);
    ("formatHooks", VObj [("svg", VFun svgHook)]);
    ("cacheDuration", VStr "1d");
    ("cacheOptions", VObj []);
    ("filenameFormat", VNull);
    ("urlFormat", VNull);
    ("statsOnly", VBool false);
    ("remoteImageMetadata", VObj []);
    ("useCache", VBool true);
    ("dryRun", VBool false);
    ("hashLength", num 10);
    ("fixOrientation", VBool false);
    ("useCacheValidityInHash", VBool true);
    ("minimumThreshold", VNum (5 # 4)) ].

(** [JSON.stringify]: [None] is the [undefined] it returns for a
    function or [undefined]; such properties are left out of an object
    and become [null] in an array. *)
Fixpoint stringify (v : jsval) : option string :=
  match v with
  | VUndef | VFun _ => None
  | VNull => Some "null"
  | VBool b => Some (if b then "true" else "false")
  | VNum q => Some (num_to_string q)
  | VStr s => Some (json_quote s)
  | VBuf bytes =>
      Some ("{" +:+ json_quote "type" +:+ ":" +:+ json_quote "Buffer" +:+ ","
            +:+ json_quote "data" +:+ ":["
            +:+ String.concat ","
                  (map (fun c => num_to_string (inject_Z (Z.of_nat (nat_of_ascii c))))
                       (list_ascii_of_string bytes))
            +:+ "]}")
  | VArr items =>
      Some ("[" +:+ String.concat ","
                      (map (fun i => match stringify i with Some s => s | None => "null" end)
                           items)
            +:+ "]")
  | VObj props =>
      Some ("{" +:+ String.concat ","
                      (flat_map (fun kv => match stringify (snd kv) with
                                           | Some s => [json_quote (fst kv) +:+ ":" +:+ s]
                                           | None => []
                                           end) props)
            +:+ "}")
  end.

Definition JSON_stringify (o : obj) : string :=
  match stringify (VObj o) with Some s => s | None => "" end.

(** [Util.isRemoteUrl] *)
Definition Util_isRemoteUrl (url : string) : bool :=
  match url_protocol url with
  | Some protocol => String.prefix "https:" protocol || String.prefix "http:" protocol
  | None => false
  end.

Definition src_value (s : source) : jsval :=
  match s with SrcString p => VStr p | SrcBuffer b => VBuf b end.

(** [fs] takes a [Buffer] for a path as well. *)
Definition src_path (s : source) : string :=
  match s with SrcString p => p | SrcBuffer b => b end.

(** [Object.assign({}, globalOptions, options)] *)
Definition merged_options (opts : option obj) : obj :=
  obj_assign (obj_assign [] globalOptions) (match opts with Some o => o | None => [] end).

(** [typeof src === "string" && Util.isRemoteUrl(src)] *)
Definition is_remote (src : source) : bool :=
  match src with
  | SrcString u => Util_isRemoteUrl u
  | SrcBuffer _ => false
  end.

(** [this.cacheOptions] of a remote source. *)
Definition cacheOptions_for (options : obj) : obj :=
  obj_assign
    [("duration", prop "cacheDuration" options);
     ("dryRun", prop "dryRun" options);
     ("type", VStr "buffer")]
    (match prop "cacheOptions" options with VObj o => o | _ => [] end).

(** [new Image(src, options)] *)
Definition new_Image (src : source) (opts : option obj) : result Image :=
  match src with
  | SrcString "" => Throw ESrcRequired
  | _ =>
      let options := merged_options opts in
      Ok (mkImage src (is_remote src) options
                  (if is_remote src then Some (cacheOptions_for options) else None)
                  None None)
  end.

Section Methods.
Variable w : World.

(** [Image.getInMemoryCacheKey] *)
Definition getInMemoryCacheKey : M string :=
  do img <- this;
  let opts := getSortedObject (options img) in
  let opts := obj_set "__originalSrc" (src_value (src img)) opts in
  do opts <-
    (if isRemoteUrl img then
       let opts := obj_set "sourceUrl" (src_value (src img)) opts in
       match cacheOptions img with
       | Some co =>
           ret (obj_set "__validAssetCache"
                  (VBool (isCacheValid w (src_path (src img)) co)) opts)
       | None => ret opts
       end
     else
       match src img with
       | SrcBuffer b =>
           let opts := obj_set "sourceUrl" (VStr b) opts in
           ret (obj_set "__originalSize" (num (Z.of_nat (String.length b))) opts)
       | SrcString p =>
           run emit (EvStat p);
           match fs_statSync_size w p with
           | Some n => ret (obj_set "__originalSize" (num n) opts)
           | None => throw (EFileSystem p)
           end
       end);
  ret (JSON_stringify opts).

(** [Image.getFileContents]; [VBool false] for a remote source. *)
Definition getFileContents : M jsval :=
  do img <- this;
  if isRemoteUrl img then ret (VBool false)
  else
    do contents <-
      match src img with
      | SrcBuffer b => ret (Some b)
      | SrcString _ => ret (_contents img)
      end;
    match contents with
    | Some c =>
        run set_this (mkImage (src img) (isRemoteUrl img) (options img)
                        (cacheOptions img) (computedHash img) (Some c));
        ret (VBuf c)
    | None =>
        run emit (EvReadFile (src_path (src img)));
        match fs_readFileSync w (src_path (src img)) with
        | Some c =>
            run set_this (mkImage (src img) (isRemoteUrl img) (options img)
                            (cacheOptions img) (computedHash img) (Some c));
            ret (VBuf c)
        | None => throw (EFileSystem (src_path (src img)))
        end
    end.

(** The entries of an array-like value under their indices. *)
Definition indexed (items : list jsval) : obj :=
  combine (map (fun i => num_to_string (inject_Z (Z.of_nat i))) (seq 0 (List.length items)))
          items.

(** [Util.getSortedObject] on any value: [Object.keys] of a primitive is
    empty, and the indices of an array or string stay in numeric order
    however they are inserted. *)
Definition Util_getSortedObject (unordered : jsval) : obj :=
  match unordered with
  | VObj props => getSortedObject props
  | VArr items => indexed items
  | VStr s => indexed (map (fun c => VStr (String c "")) (list_ascii_of_string s))
  | VBuf b => indexed (map (fun c => num (Z.of_nat (nat_of_ascii c))) (list_ascii_of_string b))
  | VUndef | VNull | VBool _ | VNum _ | VFun _ => []
  end.

(** [hashObject]: the sharp option objects, each with sorted keys. *)
Definition hashObject (options : obj) : obj :=
  fold_left (fun o key =>
               if truthy (prop key options)
               then obj_set key (VObj (Util_getSortedObject (prop key options))) o
               else o) keysToKeep [].

(** [base64hash.substring(0, this.options.hashLength)] *)
Definition truncate_hash (hashLength : jsval) (s : string) : result string :=
  match hashLength with
  | VNum q => Ok (String.substring 0 (Z.to_nat (trunc q)) s)
  | VUndef => Ok s
  | _ => Throw EUnmodelled
  end.

(** [Image.getHash] past the look at [this.computedHash]. The contents
    and their string are the same bytes (the text of an SVG is UTF-8). *)
Definition computeHash : M string :=
  do img <- this;
  run emit (EvExists (src_path (src img)));
  do data <-
    (if fs_existsSync w (src_path (src img)) then
       do fileContents <- getFileContents;
       match fileContents with
       | VBuf fileContentsStr =>
           let firstFour := String.substring 0 5 (trim fileContentsStr) in
           if String.eqb firstFour "<svg " || String.eqb firstFour "<?xml"
           then ret (strip_newlines fileContentsStr)
           else ret fileContentsStr
       | _ => throw EType
       end
     else
       if truthy (prop "useCacheValidityInHash" (options img)) && isRemoteUrl img
       then match cacheOptions img with
            | Some co =>
                ret (src_path (src img) +:+ "ValidCache:" +:+
                     (if isCacheValid w (src_path (src img)) co
                      then "true" else "false"))
            | None => ret (src_path (src img))
            end
       else ret (src_path (src img)));
  let data := data +:+ JSON_stringify (hashObject (options img)) in
  let base64hash := url_safe (sha256_base64 data) in
  do resultHash <- lift (truncate_hash (prop "hashLength" (options img)) base64hash);
  do img <- this;
  run set_this (mkImage (src img) (isRemoteUrl img) (options img)
                  (cacheOptions img) (Some resultHash) (_contents img));
  ret resultHash.

(** [Image.getHash]; an empty [computedHash] is falsy and computed anew. *)
Definition getHash : M string :=
  do img <- this;
  match computedHash img with
  | Some h => if String.eqb h "" then computeHash else ret h
  | None => computeHash
  end.

(** *** Stats *)

Definition with_size (stat : Stat) (n : option Z) : Stat :=
  mkStat (format stat) (width stat) (height stat) (url stat) (sourceType stat)
         (srcset stat) n (filename stat) (outputPath stat) (buffer stat).

Definition with_buffer (stat : Stat) (b : jsval) : Stat :=
  mkStat (format stat) (width stat) (height stat) (url stat) (sourceType stat)
         (srcset stat) (size stat) (filename stat) (outputPath stat) (Some b).

(** A value inside a template literal. *)
Definition to_str (v : jsval) : string :=
  match v with VStr s => s | _ => to_string v end.

Definition show_Z (n : Z) : string := num_to_string (inject_Z n).

(** [ImagePath.filenameFormat] *)
Definition ImagePath_filenameFormat (id : string) (width : Z) (fmt : jsval) : string :=
  if width =? 0 then id +:+ "." +:+ to_str fmt
  else id +:+ "-" +:+ show_Z width +:+ "." +:+ to_str fmt.

(** [ImagePath.getFilename]; the name goes to [path.join], which wants a
    string. *)
Definition ImagePath_getFilename (id : string) (src : source) (width : Z) (fmt : jsval)
    (options : obj) : result string :=
  let fallback := Ok (ImagePath_filenameFormat id width fmt) in
  match prop "filenameFormat" options with
  | VFun f =>
      let filename := call f [VStr id; src_value src; num width; fmt; VObj options] in
      if truthy filename then
        match filename with VStr s => Ok s | _ => Throw EType end
      else fallback
  | _ => fallback
  end.

(** [ImagePath.convertFilePathToUrl] *)
Definition ImagePath_convertFilePathToUrl (dir : jsval) (filename : string) : result string :=
  match dir with
  | VStr d => Ok (path_to_url (path_join d filename))
  | _ => Throw EType
  end.

(** [Image.getStat] *)
Definition getStat (outputFormat : string) (width height : Z) : M Stat :=
  do img <- this;
  let o := options img in
  let ext := member (prop "extensions" o) outputFormat in
  let outputExtension := if truthy ext then ext else VStr outputFormat in
  do named <-
    match prop "urlFormat" o with
    | VFun f =>
        do hash <- (if negb (truthy (prop "statsOnly" o))
                    then do h <- getHash; ret (VStr h) else ret VUndef);
        ret (call f [VObj [("hash", hash); ("src", src_value (src img));
                           ("width", num width); ("format", outputExtension)];
                     VObj o],
             None)
    | _ =>
        do hash <- getHash;
        do outputFilename <- lift (ImagePath_getFilename hash (src img) width outputExtension o);
        do url <- lift (ImagePath_convertFilePathToUrl (prop "urlPath" o) outputFilename);
        ret (VStr url, Some outputFilename)
    end;
  let url := fst named in
  let stats := mkStat outputFormat width height url (MIME_TYPES outputFormat)
                      (to_str url +:+ " " +:+ show_Z width +:+ "w") None None None None in
  match snd named with
  | Some outputFilename =>
      if String.eqb outputFilename "" then ret stats
      else
        match prop "outputDir" o with
        | VStr dir =>
            ret (mkStat outputFormat width height url (MIME_TYPES outputFormat)
                        (srcset stats) None (Some outputFilename)
                        (Some (path_join dir outputFilename)) None)
        | _ => throw EType
        end
  | None => ret stats
  end.

(** [Image.needsRotation] *)
Definition needsRotation (orientation : option Z) : bool :=
  match orientation with
  | Some o => (5 <=? o) && (o <=? 8)
  | None => false
  end.

(** The metadata as [getFullStats] leaves it for its caller: width and
    height swapped for a rotated image, the page height for the height. *)
Definition oriented (metadata : Metadata) : Metadata :=
  let metadata :=
    if needsRotation (m_orientation metadata) then
      mkMetadata (m_height metadata) (m_width metadata) (m_format metadata)
                 (m_orientation metadata) (m_pageHeight metadata) (m_size metadata)
    else metadata in
  match m_pageHeight metadata with
  | Some h =>
      if h =? 0 then metadata
      else mkMetadata (m_width metadata) h (m_format metadata)
                      (m_orientation metadata) (m_pageHeight metadata) (m_size metadata)
  | None => metadata
  end.

(** [metadata.format || this.options.overrideInputFormat] *)
Definition nativeFormat (metadata : Metadata) (o : obj) : option string :=
  if str_truthy (m_format metadata) then m_format metadata
  else str_of (prop "overrideInputFormat" o).

Definition minimumThreshold_of (v : jsval) : result Q :=
  match v with
  | VNum q => Ok q
  | VUndef => Ok 1%Q
  | _ => Throw EUnmodelled
  end.

Definition decoded {A : Type} (o : option A) : result A :=
  match o with Some a => Ok a | None => Throw EUnmodelled end.

(** [if (metadata.size) { svgStats.size = metadata.size; }] *)
Definition with_metadata_size (metadata : Metadata) (svgStats : Stat) : Stat :=
  match m_size metadata with
  | Some n => if n =? 0 then svgStats else with_size svgStats (Some n)
  | None => svgStats
  end.

(** The loop of [getFullStats] over the output formats; returning early
    is its [break]. *)
Fixpoint fullStats_loop (metadata : Metadata) (outputFormats : list (option string))
    (results : list Stat) : M (list Stat) :=
  match outputFormats with
  | [] => ret results
  | outputFormat :: rest =>
      if negb (str_truthy outputFormat) || is_fmt outputFormat "auto" then throw EAutoFormat
      else
        match outputFormat with
        | None => throw EAutoFormat
        | Some fmt =>
            do img <- this;
            let o := options img in
            if String.eqb fmt "svg" then
              if is_fmt (nativeFormat metadata o) "svg" then
                do svgStats <- getStat "svg" (m_width metadata) (m_height metadata);
                let svgStats := with_metadata_size metadata svgStats in
                let results := results ++ [svgStats] in
                if is_true (prop "svgShortCircuit" o) then ret results
                else fullStats_loop metadata rest results
              else fullStats_loop metadata rest results
            else
              do requested <- lift (decoded (widths_of (prop "widths" o)));
              do threshold <- lift (minimumThreshold_of (prop "minimumThreshold" o));
              let widths :=
                getValidWidths (m_width metadata) requested
                  (is_fmt (m_format metadata) "svg" && truthy (prop "svgAllowUpscale" o))
                  threshold in
              do stats <- mapM (fun width =>
                                  getStat fmt width
                                    (width * m_height metadata / m_width metadata))
                               widths;
              fullStats_loop metadata rest (results ++ stats)
        end
  end.

(** [Image.getFullStats] *)
Definition getFullStats (metadata : Metadata) : M plan :=
  do img <- this;
  let o := options img in
  do formats <- lift (decoded (formats_of (prop "formats" o)));
  let outputFormats :=
    getFormatsArray formats (nativeFormat metadata o) (prop "svgShortCircuit" o) in
  do results <- fullStats_loop (oriented metadata) outputFormats [];
  ret (_transformRawFiles (prop "svgShortCircuit" o) results outputFormats).

(** *** Materialisation *)

(** [Image.getSharpOptionsForFormat] *)
Definition getSharpOptionsForFormat (o : obj) (fmt : string) : jsval :=
  if String.eqb fmt "webp" then prop "sharpWebpOptions" o
  else if String.eqb fmt "jpeg" then prop "sharpJpegOptions" o
  else if String.eqb fmt "png" then prop "sharpPngOptions" o
  else if String.eqb fmt "avif" then prop "sharpAvifOptions" o
  else VObj [].

(** [Object.keys(v).length] *)
Definition keys_length (v : jsval) : result nat :=
  match v with
  | VUndef | VNull => Throw EType
  | VObj props => Ok (List.length props)
  | VArr items => Ok (List.length items)
  | VStr s | VBuf s => Ok (String.length s)
  | VBool _ | VNum _ | VFun _ => Ok 0%nat
  end.

(** [v.length] *)
Definition js_length (v : jsval) : option Z :=
  match v with
  | VStr s | VBuf s => Some (Z.of_nat (String.length s))
  | VArr items => Some (Z.of_nat (List.length items))
  | _ => None
  end.

(** [Buffer.from(v)] *)
Definition Buffer_from (v : jsval) : result jsval :=
  match v with
  | VStr s | VBuf s => Ok (VBuf s)
  | VArr _ => Throw EUnmodelled
  | _ => Throw EType
  end.

(** The calls made on the clone before it is encoded. *)
Definition sharp_pipeline (o : obj) (metadata : Metadata) (stat : Stat) : sharp_ops :=
  let hook := match prop "sharpHook" o with VFun f => Some f | _ => None end in
  let rotate := truthy (prop "fixOrientation" o) || needsRotation (m_orientation metadata) in
  let svgUpscale := truthy (prop "svgAllowUpscale" o) && is_fmt (m_format metadata) "svg" in
  let resize :=
    if (width stat <? m_width metadata) || svgUpscale
    then Some (width stat, negb svgUpscale)
    else None in
  mkOps hook rotate resize None.

Definition with_toFormat (ops : sharp_ops) (fmt : string) (formatOptions : jsval) : sharp_ops :=
  mkOps (op_hook ops) (op_rotate ops) (op_resize ops) (Some (fmt, formatOptions)).

(** The body of the loop of [Image.resize] for one stat. The outer
    [result] is a synchronous throw or an awaited rejection, which ends
    the loop; the inner one is the promise pushed on
    [outputFilePromises], if any. *)
Definition materialize (input : source) (sharpOptions : obj) (metadata : Metadata)
    (outputFormat : string) (stat : Stat) : M (option (result Stat)) :=
  do img <- this;
  let o := options img in
  let dryRun := truthy (prop "dryRun" o) in
  let brotli := is_str (prop "svgCompressionSize" o) "br" in
  do cached <-
    (if truthy (prop "useCache" o) then
       match outputPath stat with
       | Some p => run emit (EvExists p); ret (fs_existsSync w p)
       | None => ret false
       end
     else ret false);
  if cached then
    do contents <- (if dryRun then getFileContents else ret VUndef);
    let stat := if dryRun then with_buffer stat contents else stat in
    if String.eqb outputFormat "svg" && brotli then
      do contents <- (if truthy contents then ret contents else getFileContents);
      run emit EvBrotliSize;
      do n <- lift (brotliSize_sync w contents);
      ret (Some (Ok (with_size stat (Some n))))
    else
      match outputPath stat with
      | Some p =>
          run emit (EvStat p);
          match fs_statSync_size w p with
          | Some n => ret (Some (Ok (with_size stat (Some n))))
          | None => throw (EFileSystem p)
          end
      | None => throw EType
      end
  else
    let sharpInstance := sharp_pipeline o metadata stat in
    run (if dryRun then ret tt
         else
           match prop "outputDir" o with
           | VStr dir => run emit (EvMkdir dir); lift (fsp_mkdir w dir)
           | _ => throw EType
           end);
    let hook := member (prop "formatHooks" o) outputFormat in
    if truthy (prop "formatHooks" o) && truthy hook then
      match hook with
      | VFun f =>
          run emit (EvFormatHook f sharpInstance);
          do hookResult <- lift (formatHook_call w f stat input sharpInstance);
          if truthy hookResult then
            do n <- (if brotli then
                       run emit EvBrotliSize;
                       do n <- lift (brotliSize_sync w hookResult); ret (Some n)
                     else ret (js_length hookResult));
            let stat := with_size stat n in
            if dryRun then
              do b <- lift (Buffer_from hookResult);
              ret (Some (Ok (with_buffer stat b)))
            else
              match outputPath stat with
              | Some p =>
                  run emit (EvMkdir (path_dirname p));
                  match fsp_mkdir w (path_dirname p) with
                  | Ok _ =>
                      run emit (EvWriteFile p hookResult);
                      match fsp_writeFile w p hookResult with
                      | Ok _ => ret (Some (Ok stat))
                      | Throw e => ret (Some (Throw e))
                      end
                  | Throw e => ret (Some (Throw e))
                  end
              | None => throw EType
              end
          else ret None
      | _ => throw EType
      end
    else
      let sharpFormatOptions := getSharpOptionsForFormat o outputFormat in
      do n <- lift (keys_length sharpFormatOptions);
      let hasFormatOptions := (0 <? n)%nat in
      let sharpInstance :=
        if hasFormatOptions || negb (is_fmt (m_format metadata) outputFormat) then
          with_toFormat sharpInstance outputFormat
            (if String.eqb outputFormat "heic" then VObj [("compression", VStr "av1")]
             else sharpFormatOptions)
        else sharpInstance in
      match (if dryRun then None else outputPath stat) with
      | Some p =>
          run emit (EvMkdir (path_dirname p));
          match fsp_mkdir w (path_dirname p) with
          | Ok _ =>
              run emit (EvSharpToFile sharpInstance p);
              match sharp_toFile w input sharpOptions sharpInstance p with
              | Ok n => ret (Some (Ok (with_size stat (Some n))))
              | Throw e => ret (Some (Throw e))
              end
          | Throw e => ret (Some (Throw e))
          end
      | None =>
          run emit (EvSharpToBuffer sharpInstance);
          match sharp_toBuffer w input sharpOptions sharpInstance with
          | Ok (data, n) => ret (Some (Ok (with_size (with_buffer stat (VBuf data)) (Some n))))
          | Throw e => ret (Some (Throw e))
          end
      end.

Fixpoint materialize_all (input : source) (sharpOptions : obj) (metadata : Metadata)
    (jobs : list (string * Stat)) : M (list (result Stat)) :=
  match jobs with
  | [] => ret []
  | (outputFormat, stat) :: rest =>
      do p <- materialize input sharpOptions metadata outputFormat stat;
      do ps <- materialize_all input sharpOptions metadata rest;
      ret (match p with Some p => p :: ps | None => ps end)
  end.

(** [Promise.all] *)
Fixpoint Promise_all {A : Type} (ps : list (result A)) : result (list A) :=
  match ps with
  | [] => Ok []
  | Ok a :: ps' => match Promise_all ps' with Ok l => Ok (a :: l) | Throw e => Throw e end
  | Throw e :: _ => Throw e
  end.

(** The stats of a plan in the order of
    [for (outputFormat in fullStats) for (stat of fullStats[outputFormat])]. *)
Definition plan_jobs (fullStats : plan) : list (string * Stat) :=
  flat_map (fun g => map (pair (fst g)) (snd g)) fullStats.

(** [Image.resize] *)
Definition resize (input : source) : M plan :=
  do img <- this;
  let o := options img in
  let sharpOptions :=
    obj_assign [("failOnError", VBool false)]
               (match prop "sharpOptions" o with VObj props => props | _ => [] end) in
  run emit (EvSharpMetadata input);
  do metadata <- lift (sharp_metadata w input sharpOptions);
  do fullStats <- getFullStats metadata;
  do outputFilePromises <-
    materialize_all input sharpOptions (oriented metadata) (plan_jobs fullStats);
  do files <- lift (Promise_all outputFilePromises);
  ret (_transformRawFiles (prop "svgShortCircuit" o) files (map Some (obj_keys fullStats))).

(** [Image.getInput] *)
Definition getInput : M source :=
  do img <- this;
  if isRemoteUrl img then
    run emit (EvFetch (src_path (src img)));
    do bytes <- lift (assetCache_fetch w (src_path (src img))
                        (match cacheOptions img with Some co => co | None => [] end));
    ret (SrcBuffer bytes)
  else ret (src img).

(** Running a method on a fresh receiver. *)
Definition on {A : Type} (img : Image) (m : M A) : result A * list event :=
  let r := m (mkState img []) in (fst r, log (snd r)).

(** [Image.statsSync] *)
Definition statsSync (src : source) (opts : option obj) : result plan * list event :=
  if is_remote src then (Throw EStatsSyncRemote, [])
  else
    match getImageSize w src with
    | Ok (width, height, type) =>
        match new_Image src opts with
        | Ok img =>
            let r := on img (getFullStats (mkMetadata width height type None None None)) in
            (fst r, EvImageSize src :: snd r)
        | Throw e => (Throw e, [EvImageSize src])
        end
    | Throw e => (Throw e, [EvImageSize src])
    end.

(** [Image.statsByDimensionsSync] *)
Definition statsByDimensionsSync (src : source) (width height : Z) (opts : option obj)
    : result plan * list event :=
  match new_Image src opts with
  | Ok img => on img (getFullStats (mkMetadata width height None None None None))
  | Throw e => (Throw e, [])
  end.

(** *** The entry point *)

(** The settled value of the promise that [processingQueue.add] returns. *)
Definition promise : Type := result plan.

(** Modelled from the spec: the class [MemoryCache] of
    [./src/memory-cache.js], of which the module keeps one instance
    [memCache]. "[get(signature)] -> existing result/promise or nothing;
    [put(signature, promise)]. Unbounded for process lifetime; never
    evicts." *)
Definition MemoryCache_get (key : string) (memCache : gmap string promise) : option promise :=
  memCache !! key.

(** Modelled from the spec: [MemoryCache.add], the [put] of the spec. *)
Definition MemoryCache_add (key : string) (p : promise) (memCache : gmap string promise)
    : gmap string promise :=
  <[key := p]> memCache.

(** [remoteImageMetadata.width] and [.height] as numbers. *)
Definition dimension_of (v : jsval) : result Z :=
  match v with
  | VNum q => if Z.eqb (Zpos (Qden (Qred q))) 1 then Ok (Qnum (Qred q)) else Throw EUnmodelled
  | _ => Throw EUnmodelled
  end.

Definition format_of (v : jsval) : result (option string) :=
  match v with
  | VStr s => Ok (Some s)
  | VUndef | VNull => Ok None
  | _ => Throw EUnmodelled
  end.

(** The job that [queueImage] hands to the queue. *)
Definition job (src : source) (opts : option obj) : M plan :=
  match src, opts with
  | SrcString s, Some o =>
      if truthy (prop "statsOnly" o) then
        if Util_isRemoteUrl s then
          let rim := prop "remoteImageMetadata" o in
          if negb (truthy rim) || negb (truthy (member rim "width"))
             || negb (truthy (member rim "height"))
          then throw ERemoteMetadata
          else
            do width <- lift (dimension_of (member rim "width"));
            do height <- lift (dimension_of (member rim "height"));
            do fmt <- lift (format_of (member rim "format"));
            getFullStats (mkMetadata width height fmt None None None)
        else
          run emit (EvImageSize src);
          do dims <- lift (getImageSize w src);
          getFullStats (mkMetadata (fst (fst dims)) (snd (fst dims)) (snd dims)
                                   None None None)
      else do input <- getInput; resize input
  | _, _ => do input <- getInput; resize input
  end.

(** What a call of [queueImage] does: what it returns (a promise, unless
    it throws before), the in-memory cache it leaves, the outside calls
    made for it, and whether its job was put on the queue. *)
Record queued : Type := mkQueued {
  returned : result promise;
  cache_after : gmap string promise;
  events : list event;
  job_ran : bool
}.

(** [queueImage] *)
Definition queueImage (memCache : gmap string promise) (src : source) (opts : option obj)
    : queued :=
  match new_Image src opts with
  | Throw e => mkQueued (Throw e) memCache [] false
  | Ok img =>
      let useCache := truthy (prop "useCache" (options img)) in
      let k := if useCache then on img getInMemoryCacheKey else (Ok "", []) in
      match fst k with
      | Throw e => mkQueued (Throw e) memCache (snd k) false
      | Ok key =>
          match (if useCache then MemoryCache_get key memCache else None) with
          | Some cached => mkQueued (Ok cached) memCache (snd k) false
          | None =>
              let r := on img (job src opts) in
              mkQueued (Ok (fst r))
                       (if useCache then MemoryCache_add key (fst r) memCache else memCache)
                       (snd k ++ snd r) true
          end
      end
  end.

End Methods.
End Img.

(** ** Vocabulary of the statements *)


Definition of_format (t : string) (files : list Stat) : list Stat :=
  List.filter (fun e => String.eqb (format e) t) files.

(** What the grouping loop maintains: one key per format, each group the
    files of its format in arrival order, every file filed. *)
Definition grouped (files : list Stat) (byType : plan) : Prop :=
  List.NoDup (obj_keys byType) /\
  (forall t g, In (t, g) byType -> g = of_format t files) /\
  (forall e, In e files -> In (format e) (obj_keys byType)).

Definition sorted_group (t : string) (files : list Stat) : list Stat :=
  js_sort width_cmp (of_format t files).

(** The SVG entry and size the "size" filter compares against, when the
    filter runs at all. *)
Definition svg_filter (svgShortCircuit : jsval) (files : list Stat) : option (Stat * Z) :=
  if is_str svgShortCircuit "size" then
    match sorted_group "svg" files with
    | svg0 :: _ =>
        match size svg0 with
        | Some n => if n =? 0 then None else Some (svg0, n)
        | None => None
        end
    | [] => None
    end
  else None.

Definition fits (svgSize : Z) (e : Stat) : bool := negb (exceeds svgSize e).

Fixpoint takeWhile {A : Type} (f : A -> bool) (l : list A) : list A :=
  match l with
  | x :: l' => if f x then x :: takeWhile f l' else []
  | [] => []
  end.

Fixpoint dropWhile {A : Type} (f : A -> bool) (l : list A) : list A :=
  match l with
  | x :: l' => if f x then dropWhile f l' else l
  | [] => []
  end.

(** The filter in words: the rasters that fit are kept in place; the first
    raster that does not fit gives its slot to the SVG entry when a raster
    before it was kept, and is dropped like the later ones otherwise. *)
Definition substitute_svg (svg0 : Stat) (svgSize : Z) (entries : list Stat) : list Stat :=
  let kept := takeWhile (fits svgSize) entries in
  match dropWhile (fits svgSize) entries with
  | [] => kept
  | _ :: rest =>
      kept ++ (match kept with [] => [] | _ :: _ => [svg0] end)
           ++ List.filter (fits svgSize) rest
  end.









(** What [getHash] feeds the digest before the codec options: the
    contents of a local source that exists (an SVG without its line
    breaks), else the source itself with the validity of the remote
    cache. *)
Definition hash_data (w : World) (img : Image) : result string :=
  if fs_existsSync w (src_path (src img)) then
    if isRemoteUrl img then Throw EType
    else
      let normalized fileContentsStr :=
        let firstFour := String.substring 0 5 (trim fileContentsStr) in
        if String.eqb firstFour "<svg " || String.eqb firstFour "<?xml"
        then strip_newlines fileContentsStr else fileContentsStr in
      match (match src img with SrcBuffer b => Some b | SrcString _ => _contents img end) with
      | Some c => Ok (normalized c)
      | None =>
          match fs_readFileSync w (src_path (src img)) with
          | Some c => Ok (normalized c)
          | None => Throw (EFileSystem (src_path (src img)))
          end
      end
  else
    if truthy (prop "useCacheValidityInHash" (options img)) && isRemoteUrl img
    then match cacheOptions img with
         | Some co =>
             Ok (src_path (src img) +:+ "ValidCache:" +:+
                 (if isCacheValid w (src_path (src img)) co then "true" else "false"))
         | None => Ok (src_path (src img))
         end
    else Ok (src_path (src img)).

(** The bytes of a source that is a file on disk. *)
Definition local_bytes (B : Builtins) (w : World) (s : source) : option string :=
  if is_remote B s || negb (fs_existsSync w (src_path s)) then None
  else match s with
       | SrcBuffer b => Some b
       | SrcString p => fs_readFileSync w p
       end.


(** Look-ups on the file system, and with them the dimension probe. *)
Definition is_fs_probe (e : event) : bool :=
  match e with
  | EvExists _ | EvReadFile _ | EvStat _ => true
  | _ => false
  end.

Definition is_probe (e : event) : bool :=
  match e with
  | EvImageSize _ => true
  | _ => is_fs_probe e
  end.

(** Calls into the codec engine. *)
Definition is_codec (e : event) : bool :=
  match e with
  | EvSharpMetadata _ | EvSharpToFile _ _ | EvSharpToBuffer _ => true
  | _ => false
  end.

(** Calls that create a file or a directory. *)
Definition is_write (e : event) : bool :=
  match e with
  | EvMkdir _ | EvWriteFile _ _ | EvSharpToFile _ _ => true
  | _ => false
  end.

(** A method all of whose outside calls satisfy [P]. *)
Definition only (P : event -> bool) {A : Type} (m : M A) : Prop :=
  forall s, exists evs, log (snd (m s)) = log s ++ evs /\ forallb P evs = true.

(** A method that keeps [I] true of [this] and all of whose outside
    calls satisfy [P]. *)
Definition keeps (I : Image -> Prop) (P : event -> bool) {A : Type} (m : M A) : Prop :=
  forall s, I (self s) ->
    I (self (snd (m s))) /\
    exists evs, log (snd (m s)) = log s ++ evs /\ forallb P evs = true.

(** An instance made for a dry run. *)
Definition dry (img : Image) : Prop := truthy (prop "dryRun" (options img)) = true.

Definition no_write (e : event) : bool := negb (is_write e).


(** ** Sample data *)

Definition sample_stat (fmt : string) (width : Z) (size : option Z) : Stat :=
  mkStat fmt width width (VStr fmt) (MIME_TYPES fmt) fmt size None None None.

(** An SVG of native width 100 and 1000 bytes with two PNG renditions, the
    wider of them larger than the SVG. *)
Definition sample_files : list Stat :=
  [ sample_stat "svg" 100 (Some 1000);
    sample_stat "png" 200 (Some 500);
    sample_stat "png" 400 (Some 2000) ].

(** The same SVG with a single PNG rendition, larger than the SVG. *)
Definition sample_oversized : list Stat :=
  [ sample_stat "svg" 100 (Some 1000);
    sample_stat "png" 200 (Some 2000) ].

Definition sample_formats : list (option string) := [Some "svg"; Some "png"].

(** Built-ins good enough to run the module on samples: integers print in
    decimal, a quoted string is put between double quotes, the digest is
    the data itself, paths join by juxtaposition. *)
Definition sample_builtins : Builtins :=
  mkBuiltins
    (fun q => NilZero.string_of_int (Z.to_int (trunc q)))
    (fun s => String (ascii_of_nat 34) s +:+ String (ascii_of_nat 34) "")
    (fun data => data)
    (fun url => if String.prefix "https://" url then Some "https:"
                else if String.prefix "http://" url then Some "http:"
                else None)
    (fun dir file => dir +:+ file)
    (fun p => p)
    (fun p => p)
    (fun _ => "[object Object]")
    (fun _ _ => VUndef)
    0%nat.

(** A world with one local file [logo.svg] of 1000 bytes and native width
    100, a codec that encodes anything to 2000 bytes, and, when
    [built] holds, the outputs of an earlier run in [img/]. *)
Definition sample_world (built : bool) : World :=
  mkWorld
    (fun p => String.eqb p "logo.svg" || (built && String.prefix "img/" p))
    (fun p => if String.eqb p "logo.svg" then Some "<svg ></svg>" else None)
    (fun p => if String.eqb p "logo.svg" then Some 1000
              else if built && String.prefix "img/" p then Some 2000 else None)
    (fun _ _ => true)
    (fun _ _ => Ok "<svg ></svg>")
    (fun _ => Ok tt)
    (fun _ _ => Ok tt)
    (fun _ => Ok (100, 100, Some "svg"))
    (fun _ _ _ _ => Ok (VStr "<svg ></svg>"))
    (fun _ _ => Ok (mkMetadata 100 100 (Some "svg") None None None))
    (fun _ _ _ _ => Ok 2000)
    (fun _ _ _ => Ok ("encoded", 2000))
    (fun _ => Ok 300).

(** A world whose codec cannot read the input. *)
Definition sample_broken_world : World :=
  mkWorld
    (fun p => String.eqb p "logo.svg")
    (fun p => if String.eqb p "logo.svg" then Some "<svg ></svg>" else None)
    (fun p => if String.eqb p "logo.svg" then Some 1000 else None)
    (fun _ _ => true)
    (fun _ _ => Throw (ECollaborator "fetch"))
    (fun _ => Ok tt)
    (fun _ _ => Ok tt)
    (fun _ => Throw (ECollaborator "image-size"))
    (fun _ _ _ _ => Throw (ECollaborator "hook"))
    (fun _ _ => Throw (ECollaborator "sharp"))
    (fun _ _ _ _ => Throw (ECollaborator "sharp"))
    (fun _ _ _ => Throw (ECollaborator "sharp"))
    (fun _ => Throw (ECollaborator "brotli")).

(** The instance that [new Image(src, opts)] builds. *)
Definition image_of (src : source) (opts : option obj) : Image :=
  match new_Image sample_builtins src opts with
  | Ok img => img
  | Throw _ => mkImage (SrcString "") false [] None None None
  end.

(** The instance that [queueImage("logo.svg")] builds, and its signature. *)
Definition sample_image : Image := image_of (SrcString "logo.svg") None.

Definition sample_key : string :=
  match fst (on sample_image (getInMemoryCacheKey sample_builtins sample_broken_world)) with
  | Ok key => key
  | Throw _ => ""
  end.

Definition empty_cache : gmap string promise := ∅.


(** What the codec reports for [logo.svg]. *)
Definition sample_metadata : Metadata := mkMetadata 100 100 (Some "svg") None None None.

(** [logo.svg] asked for as PNG and SVG, and as the default formats, both
    with [svgShortCircuit: true]. *)
Definition sample_svg_request : state :=
  mkState (image_of (SrcString "logo.svg")
             (Some [("svgShortCircuit", VBool true);
                    ("formats", VArr [VStr "png"; VStr "svg"])])) [].

Definition sample_default_request : state :=
  mkState (image_of (SrcString "logo.svg") (Some [("svgShortCircuit", VBool true)])) [].

Definition scaled_size (ops : sharp_ops) : Z :=
  match op_resize ops with
  | Some resized => fst resized / 15
  | None => 7
  end.



(** ** Vocabulary of the further properties *)

(** The entries of a [formats] argument: the pieces of a string, the
    items of an array. *)
Definition requested_formats (formats : formats_arg) : list (option string) :=
  match formats with
  | FormatsNone => []
  | FormatsString s => if String.eqb s "" then [] else map Some (split_comma s)
  | FormatsArray l => l
  end.

(** An entry that [getFullStats] refuses: falsy or ["auto"]. *)
Definition unresolved (f : option string) : bool :=
  negb (str_truthy f) || is_fmt f "auto".

(** The order of [Array.prototype.sort] without a comparator on the keys
    in use: strictly before, and before or equal. *)
Definition str_lt (a b : string) : Prop := String.compare a b = Lt.

Definition str_le (a b : string) : Prop := a = b \/ str_lt a b.

(** Two objects that hold the same value under every key. *)
Definition same_bindings (o1 o2 : obj) : Prop := forall k, obj_get k o1 = obj_get k o2.

(** What [getHash] takes for an SVG: the text, trimmed, starts with
    ["<svg "] or ["<?xml"]. *)
Definition looks_like_svg (fileContentsStr : string) : bool :=
  let firstFour := String.substring 0 5 (trim fileContentsStr) in
  String.eqb firstFour "<svg " || String.eqb firstFour "<?xml".

(** An instance with the options [o], and the events without restriction. *)
Definition has_options (o : obj) (img : Image) : Prop := options img = o.
Definition any_event (e : event) : bool := true.

(** What [getFullStats] plans for a source with the given metadata: an
    SVG entry of the native dimensions when the source is an SVG, and
    raster entries of the valid widths, the height following the aspect
    ratio. *)
Definition planned (o : obj) (metadata : Metadata) (st : Stat) : Prop :=
  if String.eqb (format st) "svg" then
    is_fmt (nativeFormat metadata o) "svg" = true /\
    width st = m_width metadata /\ height st = m_height metadata
  else
    exists requested threshold,
      widths_of (prop "widths" o) = Some requested /\
      minimumThreshold_of (prop "minimumThreshold" o) = Ok threshold /\
      In (width st)
         (getValidWidths (m_width metadata) requested
            (is_fmt (m_format metadata) "svg" && truthy (prop "svgAllowUpscale" o))
            threshold) /\
      height st = width st * m_height metadata / m_width metadata.

(** Two stats for the same output: they agree in everything but [size]
    and [buffer]. *)
Definition same_artifact (a b : Stat) : Prop :=
  format a = format b /\ width a = width b /\ height a = height b /\ url a = url b /\
  sourceType a = sourceType b /\ srcset a = srcset b /\ filename a = filename b /\
  outputPath a = outputPath b.

(** A method whose every returned value satisfies [Q]. *)
Definition yields {A : Type} (Q : A -> Prop) (m : M A) : Prop :=
  forall s a s', m s = (Ok a, s') -> Q a.

(** A promise of the loop of [resize], when it is fulfilled. *)
Definition settled_as (Q : Stat -> Prop) (p : option (result Stat)) : Prop :=
  match p with Some (Ok st) => Q st | _ => True end.

(** Look-ups on the file system and the size estimate. *)
Definition is_lookup (e : event) : bool :=
  match e with
  | EvBrotliSize => true
  | _ => is_fs_probe e
  end.

(** An instance with [useCache] set. *)
Definition caching (img : Image) : Prop := truthy (prop "useCache" (options img)) = true.

(** A format that [_transformRawFiles] gives a group of its own: asked
    for, and neither falsy nor ["auto"]. *)
Definition wanted (formats : list (option string)) (t : string) : Prop :=
  In (Some t) formats /\ t <> "" /\ t <> "auto".

(** A method that does not look at the log: on any log it returns what it
    returns on the empty one, and appends the same events. *)
Definition framed {A : Type} (m : M A) : Prop :=
  forall img l,
    m (mkState img l)
    = (fst (m (mkState img [])),
       mkState (self (snd (m (mkState img [])))) (l ++ log (snd (m (mkState img []))))).

(** No outside call at all. *)
Definition no_event (e : event) : bool := false.

(** ** Further sample data *)

Definition line_feed : string := String (ascii_of_nat 10) "".
Definition carriage_return : string := String (ascii_of_nat 13) "".

(** A world with the same SVG saved twice: [unix.svg] with a line feed
    between its tags, [dos.svg] with a carriage return and a line feed. *)
Definition sample_line_break_world : World :=
  mkWorld
    (fun p => String.eqb p "unix.svg" || String.eqb p "dos.svg")
    (fun p => if String.eqb p "unix.svg" then Some ("<svg >" +:+ line_feed +:+ "</svg>")
              else if String.eqb p "dos.svg"
                   then Some ("<svg >" +:+ carriage_return +:+ line_feed +:+ "</svg>")
                   else None)
    (fun p => if String.eqb p "unix.svg" then Some 13
              else if String.eqb p "dos.svg" then Some 14 else None)
    (fun _ _ => true)
    (fun _ _ => Throw (ECollaborator "fetch"))
    (fun _ => Ok tt)
    (fun _ _ => Ok tt)
    (fun _ => Ok (100, 100, Some "svg"))
    (fun _ _ _ _ => Ok (VStr "<svg ></svg>"))
    (fun _ _ => Ok (mkMetadata 100 100 (Some "svg") None None None))
    (fun _ _ _ _ => Ok 2000)
    (fun _ _ _ => Ok ("encoded", 2000))
    (fun _ => Ok 300).

(** A JPEG of 1000 by 500 asked for as WebP and SVG in the widths 400 and
    2000, and a request for the native format of a source whose format is
    not known. *)
Definition sample_photo_metadata : Metadata :=
  mkMetadata 1000 500 (Some "jpeg") None None None.

Definition sample_photo_request : state :=
  mkState (image_of (SrcString "photo.jpg")
             (Some [("formats", VArr [VStr "webp"; VStr "svg"]);
                    ("widths", VArr [num 400; num 2000])])) [].

Definition sample_auto_request : state :=
  mkState (image_of (SrcString "photo.jpg") (Some [("formats", VArr [VStr "auto"])])) [].

(** A world with one local file [photo.jpg], a JPEG of 1000 by 500, and a
    codec whose output grows with the width. *)
Definition sample_photo_world : World :=
  mkWorld
    (fun p => String.eqb p "photo.jpg")
    (fun p => if String.eqb p "photo.jpg" then Some "JFIF" else None)
    (fun p => if String.eqb p "photo.jpg" then Some 4 else None)
    (fun _ _ => true)
    (fun _ _ => Throw (ECollaborator "fetch"))
    (fun _ => Ok tt)
    (fun _ _ => Ok tt)
    (fun _ => Ok (1000, 500, Some "jpeg"))
    (fun _ _ _ _ => Ok VUndef)
    (fun _ _ => Ok sample_photo_metadata)
    (fun _ _ ops _ => Ok (scaled_size ops))
    (fun _ _ ops => Ok ("encoded", scaled_size ops))
    (fun _ => Ok 300).

(** A stat as [getStat] plans it, before it has a size. *)
Definition sample_planned_stat : Stat :=
  mkStat "png" 50 50 (VStr "/img/logo-50.png") (Some "image/png") "/img/logo-50.png 50w"
         None (Some "logo-50.png") (Some "img/logo-50.png") None.

(** A remote image asked for with statsOnly and a urlFormat callback. *)
Definition sample_stats_request : state :=
  mkState (image_of (SrcString "https://example.com/a.png")
             (Some [("statsOnly", VBool true); ("urlFormat", VFun 7)])) [].

(** ** Claims on the policy engine *)

(** C1, where the code departs from it: at native width 500, widths [400,
    800], no upscaling and threshold 1.25 the code returns [400] only: 500 is
    not greater than floor(400 * 1.25) = 500, so the 800 is dropped instead of
    collapsing to the native width. *)
Theorem C1_getValidWidths_500_400_800 :
  getValidWidths 500 [WNum 400; WNum 800] false (5 # 4) = [400].
Proof. vm_compute. reflexivity. Qed.

(** Against C3 as stated: the code does not return [webp, jpeg] for formats
    [jpg, webp] with native format jpeg. *)
Lemma C3_counterexample :
  getFormatsArray (FormatsArray [Some "jpg"; Some "webp"]) (Some "jpeg") (VBool false)
  <> [Some "webp"; Some "jpeg"].
Proof. vm_compute. discriminate. Qed.

(** C3, as the code has it: formats [jpg, webp] with native format jpeg and
    svgShortCircuit false resolve to [jpeg, webp]: the alias is resolved and
    the requested order is kept. *)
Theorem C3_getFormatsArray_jpg_webp :
  getFormatsArray (FormatsArray [Some "jpg"; Some "webp"]) (Some "jpeg") (VBool false)
  = [Some "jpeg"; Some "webp"].
Proof. vm_compute. reflexivity. Qed.

(** ** Facts on sorting and on objects *)

Lemma sort_insert_In {A : Type} (cmp : A -> A -> Z) (x y : A) (l : list A) :
  In y (sort_insert cmp x l) <-> y = x \/ In y l.
Proof.
  induction l as [|z l IH]; simpl.
  - intuition.
  - destruct (cmp x z <=? 0); simpl; rewrite ?IH; intuition.
Qed.

Lemma js_sort_In {A : Type} (cmp : A -> A -> Z) (y : A) (l : list A) :
  In y (js_sort cmp l) <-> In y l.
Proof.
  induction l as [|x l IH]; simpl; [tauto|].
  rewrite sort_insert_In, IH. intuition.
Qed.




Section ObjFacts.
Context {V : Type}.
Implicit Types (o : list (string * V)) (k t : string) (v g : V).

Lemma obj_get_In k v o : obj_get k o = Some v -> In (k, v) o.
Proof.
  induction o as [|[k' v'] o IH]; simpl; [discriminate|].
  destruct (String.eqb k' k) eqn:E.
  - apply String.eqb_eq in E. intros [= ->]. left. congruence.
  - intros H. right. auto.
Qed.

Lemma obj_get_None k o : obj_get k o = None -> ~ In k (obj_keys o).
Proof.
  induction o as [|[k' v'] o IH]; simpl; [tauto|].
  destruct (String.eqb k' k) eqn:E; [discriminate|].
  apply String.eqb_neq in E. intros H [?|?]; [congruence|]. apply IH; assumption.
Qed.

Lemma obj_set_keys k v o :
  obj_keys (obj_set k v o) = if existsb (String.eqb k) (obj_keys o)
                             then obj_keys o else obj_keys o ++ [k].
Proof.
  induction o as [|[k' v'] o IH]; simpl; [reflexivity|].
  rewrite (String.eqb_sym k k').
  destruct (String.eqb k' k) eqn:E; simpl.
  - apply String.eqb_eq in E. congruence.
  - rewrite IH. destruct (existsb _ _); reflexivity.
Qed.

Lemma obj_set_NoDup k v o : List.NoDup (obj_keys o) -> List.NoDup (obj_keys (obj_set k v o)).
Proof.
  intros Hnd. rewrite obj_set_keys.
  destruct (existsb (String.eqb k) (obj_keys o)) eqn:E; [exact Hnd|].
  apply List.NoDup_app; [exact Hnd|repeat constructor; simpl; tauto|].
  intros x Hx [Hk|[]]. subst x.
  assert (existsb (String.eqb k) (obj_keys o) = true); [|congruence].
  apply List.existsb_exists. exists k. split; [exact Hx|apply String.eqb_refl].
Qed.

Lemma obj_set_In k v t g o :
  List.NoDup (obj_keys o) -> In (t, g) (obj_set k v o) ->
  (t = k /\ g = v) \/ (t <> k /\ In (t, g) o).
Proof.
  induction o as [|[k' v'] o IH]; simpl.
  - intros _ [[= <- <-]|[]]. auto.
  - intros Hnd. inversion Hnd as [|? ? Hk Hnd']; subst.
    destruct (String.eqb k' k) eqn:E.
    + apply String.eqb_eq in E. subst k'. intros [[= <- <-]|Hin]; [auto|].
      right. split; [|auto]. intros ->. apply Hk.
      change k with (fst (k, g)). apply List.in_map, Hin.
    + apply String.eqb_neq in E. intros [[= <- <-]|Hin]; [auto|].
      destruct (IH Hnd' Hin) as [?|[? ?]]; auto.
Qed.

Lemma obj_set_key_In k v o : In k (obj_keys (obj_set k v o)).
Proof.
  induction o as [|[k' v'] o IH]; simpl; [auto|].
  destruct (String.eqb k' k); simpl; auto.
Qed.

Lemma obj_set_keys_incl k v t o : In t (obj_keys o) -> In t (obj_keys (obj_set k v o)).
Proof.
  rewrite obj_set_keys. destruct (existsb _ _); [auto|]. intros. apply List.in_or_app. auto.
Qed.
End ObjFacts.

(** ** The groups of a plan *)

Lemma of_format_app t l1 l2 : of_format t (l1 ++ l2) = of_format t l1 ++ of_format t l2.
Proof. apply List.filter_app. Qed.

Lemma of_format_format t e files : In e (of_format t files) -> format e = t.
Proof.
  intros H. apply List.filter_In in H. destruct H as [_ H]. apply String.eqb_eq, H.
Qed.

Lemma of_format_absent t files :
  (forall e, In e files -> format e <> t) -> of_format t files = [].
Proof.
  induction files as [|e files IH]; simpl; [reflexivity|]. intros H.
  destruct (String.eqb (format e) t) eqn:E.
  - apply String.eqb_eq in E. exfalso. apply (H e); auto.
  - apply IH. intros; apply H; auto.
Qed.

Lemma init_groups_grouped formats byType :
  grouped [] byType -> grouped [] (fold_left
    (fun byType fmt =>
       match fmt with
       | Some f =>
           if negb (String.eqb f "") && negb (String.eqb f "auto")
           then obj_set f [] byType else byType
       | None => byType
       end) formats byType).
Proof.
  revert byType. induction formats as [|fmt formats IH]; simpl; intros byType H; [exact H|].
  apply IH. destruct fmt as [f|]; [|exact H].
  destruct (negb (String.eqb f "") && negb (String.eqb f "auto")); [|exact H].
  destruct H as (Hnd & Hg & _). split; [|split].
  - apply obj_set_NoDup, Hnd.
  - intros t g Hin. apply obj_set_In in Hin; [|exact Hnd].
    destruct Hin as [[_ ->]|[_ Hin]]; [reflexivity|]. apply Hg, Hin.
  - intros e [].
Qed.

Lemma push_file_grouped files byType file :
  grouped files byType -> grouped (files ++ [file]) (push_file byType file).
Proof.
  intros (Hnd & Hg & Hk). unfold push_file. split; [|split].
  - apply obj_set_NoDup, Hnd.
  - intros t g Hin. apply obj_set_In in Hin; [|exact Hnd].
    rewrite of_format_app. simpl.
    destruct Hin as [[-> ->]|[Hne Hin]].
    + rewrite String.eqb_refl. f_equal.
      destruct (obj_get (format file) byType) as [g0|] eqn:E.
      * apply Hg, obj_get_In, E.
      * symmetry. apply of_format_absent. intros e He Hf.
        apply obj_get_None in E. apply E. rewrite <- Hf. apply Hk, He.
    + destruct (String.eqb (format file) t) eqn:E.
      * apply String.eqb_eq in E. congruence.
      * rewrite List.app_nil_r. apply Hg, Hin.
  - intros e He. apply List.in_app_or in He. destruct He as [He|[<-|[]]].
    + apply obj_set_keys_incl, Hk, He.
    + apply obj_set_key_In.
Qed.

Lemma fold_push_grouped files pre byType :
  grouped pre byType -> grouped (pre ++ files) (fold_left push_file files byType).
Proof.
  revert pre byType. induction files as [|file files IH]; simpl; intros pre byType H.
  - rewrite List.app_nil_r. exact H.
  - replace (pre ++ file :: files) with ((pre ++ [file]) ++ files)
      by (rewrite <- List.app_assoc; reflexivity).
    apply IH, push_file_grouped, H.
Qed.

Lemma grouped_files files formats :
  grouped files (fold_left push_file files (init_groups formats)).
Proof.
  apply (fold_push_grouped files []). apply init_groups_grouped.
  split; [constructor|split]; [intros ? ? []|intros ? []].
Qed.

Lemma sort_groups_keys byType : obj_keys (sort_groups byType) = obj_keys byType.
Proof.
  unfold sort_groups, obj_keys. rewrite List.map_map.
  apply List.map_ext. intros [t g]. reflexivity.
Qed.

Lemma sort_groups_In t g byType :
  In (t, g) (sort_groups byType) ->
  exists g0, In (t, g0) byType /\ g = js_sort width_cmp g0.
Proof.
  unfold sort_groups. intros H. apply List.in_map_iff in H.
  destruct H as ([t' g0] & [= <- <-] & Hin). eauto.
Qed.

Lemma svg_entry_size_files files formats :
  svg_entry_size (sort_groups (fold_left push_file files (init_groups formats)))
  = svg_filter (VStr "size") files.
Proof.
  destruct (grouped_files files formats) as (Hnd & Hg & Hk).
  set (b := fold_left push_file files (init_groups formats)) in *.
  unfold svg_entry_size, svg_filter. simpl.
  destruct (obj_get "svg" (sort_groups b)) as [g|] eqn:E.
  - apply obj_get_In, sort_groups_In in E. destruct E as (g0 & Hin & ->).
    rewrite (Hg _ _ Hin). reflexivity.
  - apply obj_get_None in E. rewrite sort_groups_keys in E.
    unfold sorted_group. rewrite of_format_absent; [reflexivity|].
    intros e He Hf. apply E. rewrite <- Hf. apply Hk, He.
Qed.

(** Every group of the returned plan, in terms of the input files. *)
Lemma transform_groups svgShortCircuit files formats t g :
  In (t, g) (_transformRawFiles svgShortCircuit files formats) ->
  g = match svg_filter svgShortCircuit files with
      | Some (svg0, svgSize) =>
          if String.eqb t "svg" then sorted_group t files
          else filterGroup svg0 svgSize (sorted_group t files)
      | None => sorted_group t files
      end.
Proof.
  unfold _transformRawFiles. rewrite svg_entry_size_files.
  destruct (grouped_files files formats) as (Hnd & Hg & Hk).
  set (b := fold_left push_file files (init_groups formats)) in *.
  assert (Hs : forall t g, In (t, g) (sort_groups b) -> g = sorted_group t files).
  { intros t' g' H. apply sort_groups_In in H. destruct H as (g0 & Hin & ->).
    rewrite (Hg _ _ Hin). reflexivity. }
  unfold svg_filter at 2. unfold svg_filter at 1. simpl.
  destruct (sorted_group "svg" files) as [|svg0 ?];
    [destruct (is_str svgShortCircuit "size"); intros H; apply Hs, H|].
  destruct (size svg0) as [n|];
    [|destruct (is_str svgShortCircuit "size"); intros H; apply Hs, H].
  destruct (n =? 0);
    [destruct (is_str svgShortCircuit "size"); intros H; apply Hs, H|].
  destruct (is_str svgShortCircuit "size"); [|intros H; apply Hs, H].
  intros H. apply List.in_map_iff in H. destruct H as ([t' g0] & Heq & Hin).
  apply Hs in Hin. subst g0.
  destruct (String.eqb t' "svg") eqn:E; injection Heq as <- <-; rewrite E; reflexivity.
Qed.

(** ** The "size" filter on one group *)

Lemma takeWhile_In {A : Type} (f : A -> bool) (x : A) (l : list A) :
  In x (takeWhile f l) -> In x l /\ f x = true.
Proof.
  induction l as [|y l IH]; simpl; [tauto|].
  destruct (f y) eqn:E; simpl; [|tauto].
  intros [<-|H]; [auto|]. destruct (IH H); auto.
Qed.

Lemma take_drop_While {A : Type} (f : A -> bool) (l : list A) :
  l = takeWhile f l ++ dropWhile f l.
Proof.
  induction l as [|y l IH]; simpl; [reflexivity|].
  destruct (f y); simpl; congruence.
Qed.

Lemma dropWhile_head {A : Type} (f : A -> bool) (x : A) (l r : list A) :
  dropWhile f l = x :: r -> f x = false.
Proof.
  induction l as [|y l IH]; simpl; [discriminate|].
  destruct (f y) eqn:E; [exact IH|]. intros [= -> _]. exact E.
Qed.


Lemma filterLarge_added svg0 svgSize kept entries :
  keep_truthy (filterLarge svg0 svgSize true kept entries)
  = List.filter (fits svgSize) entries.
Proof.
  revert kept. induction entries as [|e entries IH]; intros kept; simpl; [reflexivity|].
  assert (F : fits svgSize e = negb (exceeds svgSize e)) by reflexivity.
  rewrite F. destruct (exceeds svgSize e); simpl; rewrite IH; reflexivity.
Qed.

Lemma filterLarge_pending svg0 svgSize kept entries :
  keep_truthy (filterLarge svg0 svgSize false kept entries)
  = takeWhile (fits svgSize) entries ++
    match dropWhile (fits svgSize) entries with
    | [] => []
    | _ :: rest =>
        (match kept, takeWhile (fits svgSize) entries with
         | false, [] => []
         | _, _ => [svg0]
         end) ++ List.filter (fits svgSize) rest
    end.
Proof.
  revert kept. induction entries as [|e entries IH]; intros kept; simpl; [reflexivity|].
  assert (F : fits svgSize e = negb (exceeds svgSize e)) by reflexivity.
  rewrite !F. destruct (exceeds svgSize e) eqn:E; simpl.
  - rewrite filterLarge_added. destruct kept; reflexivity.
  - rewrite IH. f_equal.
    destruct (dropWhile (fits svgSize) entries); [reflexivity|].
    destruct kept; destruct (takeWhile (fits svgSize) entries); reflexivity.
Qed.

Lemma filterGroup_substitute svg0 svgSize entries :
  filterGroup svg0 svgSize entries = substitute_svg svg0 svgSize entries.
Proof.
  unfold filterGroup, substitute_svg. rewrite filterLarge_pending.
  destruct (dropWhile (fits svgSize) entries); [apply List.app_nil_r|].
  destruct (takeWhile (fits svgSize) entries); reflexivity.
Qed.

Lemma substitute_svg_In svg0 svgSize entries e :
  In e (substitute_svg svg0 svgSize entries) ->
  (e = svg0 /\ takeWhile (fits svgSize) entries <> []) \/
  (In e entries /\ fits svgSize e = true).
Proof.
  unfold substitute_svg. intros H.
  destruct (dropWhile (fits svgSize) entries) as [|off rest] eqn:D.
  - right. apply takeWhile_In, H.
  - apply List.in_app_or in H. destruct H as [H|H]; [right; apply takeWhile_In, H|].
    apply List.in_app_or in H. destruct H as [H|H].
    + left. destruct (takeWhile (fits svgSize) entries); [destruct H|].
      destruct H as [<-|[]]. split; [reflexivity|discriminate].
    + right. apply List.filter_In in H. destruct H as [H ?]. split; [|assumption].
      rewrite (take_drop_While (fits svgSize) entries), D.
      apply List.in_or_app. right. right. exact H.
Qed.

Lemma substitute_svg_nonempty svg0 svgSize entries :
  substitute_svg svg0 svgSize entries <> [] <->
  exists e, In e entries /\ fits svgSize e = true.
Proof.
  split.
  - intros H. destruct (substitute_svg svg0 svgSize entries) as [|e r] eqn:S; [congruence|].
    assert (Hin : In e (substitute_svg svg0 svgSize entries)) by (rewrite S; left; reflexivity).
    apply substitute_svg_In in Hin. destruct Hin as [[_ Hk]|Hin]; [|eauto].
    destruct (takeWhile (fits svgSize) entries) as [|k ks] eqn:T; [congruence|].
    exists k. apply takeWhile_In. rewrite T. left. reflexivity.
  - intros (e & Hin & Hf). unfold substitute_svg.
    rewrite (take_drop_While (fits svgSize) entries) in Hin.
    destruct (dropWhile (fits svgSize) entries) as [|off rest] eqn:D.
    + rewrite List.app_nil_r in Hin. intros Hnil. rewrite Hnil in Hin. destruct Hin.
    + apply List.in_app_or in Hin. destruct Hin as [Hin|[<-|Hin]].
      * destruct (takeWhile (fits svgSize) entries); [destruct Hin|discriminate].
      * apply dropWhile_head in D. congruence.
      * intros Hnil. apply List.app_eq_nil in Hnil. destruct Hnil as [_ Hnil].
        apply List.app_eq_nil in Hnil. destruct Hnil as [_ Hnil].
        assert (In e (List.filter (fits svgSize) rest)) by (apply List.filter_In; auto).
        rewrite Hnil in H. destruct H.
Qed.

Lemma sorted_group_format t e files : In e (sorted_group t files) -> format e = t.
Proof.
  unfold sorted_group. rewrite js_sort_In. apply of_format_format.
Qed.

Lemma svg_filter_Some svgShortCircuit files svg0 svgSize :
  svg_filter svgShortCircuit files = Some (svg0, svgSize) ->
  is_str svgShortCircuit "size" = true /\
  hd_error (sorted_group "svg" files) = Some svg0 /\
  size svg0 = Some svgSize /\ svgSize <> 0 /\ format svg0 = "svg".
Proof.
  unfold svg_filter. destruct (is_str svgShortCircuit "size"); [|discriminate].
  destruct (sorted_group "svg" files) as [|s0 l] eqn:G; [discriminate|].
  destruct (size s0) as [n|] eqn:S; [|discriminate].
  destruct (n =? 0) eqn:Z0; [discriminate|]. intros [= <- <-].
  apply Z.eqb_neq in Z0. repeat split; auto.
  apply (sorted_group_format "svg" s0 files). rewrite G. left. reflexivity.
Qed.




(** ** Claims on the grouped plan *)

(** C2, as the code has it: under svgShortCircuit "size" with an SVG entry of
    non-zero size, every non-SVG group of the returned plan is its rasters in
    ascending width with the oversized ones removed; the SVG entry takes the
    slot of the first oversized raster only when a narrower raster of the
    group was kept before it; so no kept entry exceeds the SVG size, and a
    group is non-empty exactly when one of its rasters fits. *)
Theorem C2_size_filter_groups files formats svg0 svgSize t g :
  hd_error (sorted_group "svg" files) = Some svg0 ->
  size svg0 = Some svgSize -> svgSize <> 0 ->
  In (t, g) (_transformRawFiles (VStr "size") files formats) ->
  t <> "svg" ->
  g = substitute_svg svg0 svgSize (sorted_group t files) /\
  (forall e, In e g -> exceeds svgSize e = false) /\
  (g <> [] <-> exists e, In e (sorted_group t files) /\ exceeds svgSize e = false).
Proof.
  intros Hhd Hsize Hnz Hin Hne.
  apply transform_groups in Hin.
  assert (Hf : svg_filter (VStr "size") files = Some (svg0, svgSize)).
  { unfold svg_filter. simpl. destruct (sorted_group "svg" files); [discriminate|].
    injection Hhd as ->. rewrite Hsize.
    destruct (svgSize =? 0) eqn:E; [apply Z.eqb_eq in E; contradiction|reflexivity]. }
  rewrite Hf in Hin. apply String.eqb_neq in Hne. rewrite Hne in Hin.
  rewrite filterGroup_substitute in Hin. subst g. split; [reflexivity|]. split.
  - intros e He. apply substitute_svg_In in He. destruct He as [[-> _]|[_ He]].
    + unfold exceeds. rewrite Hsize, Z.gtb_ltb. apply Z.ltb_irrefl.
    + unfold fits in He. destruct (exceeds svgSize e); [discriminate|reflexivity].
  - rewrite substitute_svg_nonempty. unfold fits.
    split; intros (e & He & Hx); exists e; split; auto;
      destruct (exceeds svgSize e); simpl in *; congruence.
Qed.


Lemma C2_size_filter_groups_witness :
  hd_error (sorted_group "svg" sample_files) = Some (sample_stat "svg" 100 (Some 1000)) /\
  In ("png", [sample_stat "png" 200 (Some 500); sample_stat "svg" 100 (Some 1000)])
     (_transformRawFiles (VStr "size") sample_files sample_formats) /\
  ([sample_stat "png" 200 (Some 500); sample_stat "svg" 100 (Some 1000)]
   = substitute_svg (sample_stat "svg" 100 (Some 1000)) 1000
       (sorted_group "png" sample_files) /\
   (forall e, In e [sample_stat "png" 200 (Some 500); sample_stat "svg" 100 (Some 1000)] ->
              exceeds 1000 e = false) /\
   ([sample_stat "png" 200 (Some 500); sample_stat "svg" 100 (Some 1000)] <> [] <->
    exists e, In e (sorted_group "png" sample_files) /\ exceeds 1000 e = false)).
Proof.
  split; [reflexivity|]. split; [vm_compute; auto|].
  apply (C2_size_filter_groups sample_files sample_formats
           (sample_stat "svg" 100 (Some 1000)) 1000 "png").
  - reflexivity.
  - reflexivity.
  - discriminate.
  - vm_compute. auto.
  - discriminate.
Defined.

(** Against C2 as stated: when the only raster of a group is larger than the
    SVG, the group is left empty. *)
Lemma C2_counterexample :
  ~ (forall t g,
       In (t, g) (_transformRawFiles (VStr "size") sample_oversized sample_formats) ->
       g <> []).
Proof.
  intros H. apply (H "png" []); [|reflexivity]. vm_compute. auto.
Qed.

(** ** Option bags that differ in their functions *)

Section Related.
Variable R : string -> jsval -> jsval -> Prop.
Hypothesis R_refl : forall k v, R k v v.






End Related.




Section Facts.
Variable B : Builtins.
Variable w : World.


End Facts.

Section EntryFacts.
Variable B : Builtins.
Variable w : World.




Lemma new_Image_Ok src0 opts img :
  new_Image B src0 opts = Ok img ->
  img = mkImage src0 (is_remote B src0) (merged_options B opts)
                (if is_remote B src0
                 then Some (cacheOptions_for (merged_options B opts)) else None)
                None None.
Proof.
  unfold new_Image. destruct src0 as [[|c p]|b]; [discriminate| |]; intros [= <-]; reflexivity.
Qed.



(** *** The four ways through [queueImage] *)

Lemma queueImage_no_image memCache src0 opts e :
  new_Image B src0 opts = Throw e ->
  queueImage B w memCache src0 opts = mkQueued (Throw e) memCache [] false.
Proof. intros H. unfold queueImage. rewrite H. reflexivity. Qed.

Lemma queueImage_no_key memCache src0 opts img e evs :
  new_Image B src0 opts = Ok img ->
  truthy (prop "useCache" (options img)) = true ->
  on img (getInMemoryCacheKey B w) = (Throw e, evs) ->
  queueImage B w memCache src0 opts = mkQueued (Throw e) memCache evs false.
Proof. intros H Hu Hk. unfold queueImage. rewrite H, Hu, Hk. reflexivity. Qed.

Lemma queueImage_hit memCache src0 opts img key evs cached :
  new_Image B src0 opts = Ok img ->
  truthy (prop "useCache" (options img)) = true ->
  on img (getInMemoryCacheKey B w) = (Ok key, evs) ->
  memCache !! key = Some cached ->
  queueImage B w memCache src0 opts = mkQueued (Ok cached) memCache evs false.
Proof.
  intros H Hu Hk Hc. unfold queueImage, MemoryCache_get. rewrite H, Hu, Hk. simpl.
  rewrite Hc. reflexivity.
Qed.

Lemma queueImage_miss memCache src0 opts img key evs :
  new_Image B src0 opts = Ok img ->
  truthy (prop "useCache" (options img)) = true ->
  on img (getInMemoryCacheKey B w) = (Ok key, evs) ->
  memCache !! key = None ->
  queueImage B w memCache src0 opts
  = mkQueued (Ok (fst (on img (job B w src0 opts))))
             (<[key := fst (on img (job B w src0 opts))]> memCache)
             (evs ++ snd (on img (job B w src0 opts))) true.
Proof.
  intros H Hu Hk Hc. unfold queueImage, MemoryCache_get, MemoryCache_add.
  rewrite H, Hu, Hk. simpl. rewrite Hc. reflexivity.
Qed.

(** ** Claims on the entry point *)


(** C6, as the code has it: when the job of a call fails, the call returns the
    rejected promise and the in-memory cache holds that same rejected promise
    under the call's signature; a later call with an equal signature is
    returned the cached rejection, its job is not put on the queue, and the
    cache stays as it is. *)
Theorem C6_failure_stays_cached memCache src0 opts src1 opts1 img img1 key e :
  new_Image B src0 opts = Ok img -> new_Image B src1 opts1 = Ok img1 ->
  truthy (prop "useCache" (options img)) = true ->
  truthy (prop "useCache" (options img1)) = true ->
  fst (on img (getInMemoryCacheKey B w)) = Ok key ->
  fst (on img1 (getInMemoryCacheKey B w)) = Ok key ->
  returned (queueImage B w memCache src0 opts) = Ok (Throw e) ->
  MemoryCache_get key (cache_after (queueImage B w memCache src0 opts)) = Some (Throw e) /\
  returned (queueImage B w (cache_after (queueImage B w memCache src0 opts)) src1 opts1)
  = Ok (Throw e) /\
  job_ran (queueImage B w (cache_after (queueImage B w memCache src0 opts)) src1 opts1)
  = false /\
  cache_after (queueImage B w (cache_after (queueImage B w memCache src0 opts)) src1 opts1)
  = cache_after (queueImage B w memCache src0 opts).
Proof.
  intros N N1 Hu Hu1 K K1 Hret.
  destruct (on img (getInMemoryCacheKey B w)) as [r evs] eqn:Kq. simpl in K. subst r.
  destruct (on img1 (getInMemoryCacheKey B w)) as [r evs1] eqn:Kq1. simpl in K1. subst r.
  assert (Hc : cache_after (queueImage B w memCache src0 opts) !! key = Some (Throw e)).
  { destruct (memCache !! key) as [cached|] eqn:L.
    - rewrite (queueImage_hit memCache _ _ _ _ _ _ N Hu Kq L) in Hret |- *.
      cbn [returned cache_after] in *. injection Hret as ->. exact L.
    - rewrite (queueImage_miss memCache _ _ _ _ _ N Hu Kq L) in Hret |- *.
      cbn [returned cache_after] in *. injection Hret as Hret.
      rewrite lookup_insert_eq. f_equal. exact Hret. }
  split; [exact Hc|].
  rewrite (queueImage_hit _ _ _ _ _ _ _ N1 Hu1 Kq1 Hc). auto.
Qed.
End EntryFacts.


Lemma C6_failure_stays_cached_witness :
  new_Image sample_builtins (SrcString "logo.svg") None = Ok sample_image /\
  truthy (prop "useCache" (options sample_image)) = true /\
  fst (on sample_image (getInMemoryCacheKey sample_builtins sample_broken_world))
  = Ok sample_key /\
  returned (queueImage sample_builtins sample_broken_world empty_cache
              (SrcString "logo.svg") None) = Ok (Throw (ECollaborator "sharp")) /\
  (MemoryCache_get sample_key
     (cache_after (queueImage sample_builtins sample_broken_world empty_cache
                     (SrcString "logo.svg") None)) = Some (Throw (ECollaborator "sharp")) /\
   returned (queueImage sample_builtins sample_broken_world
               (cache_after (queueImage sample_builtins sample_broken_world empty_cache
                               (SrcString "logo.svg") None))
               (SrcString "logo.svg") None) = Ok (Throw (ECollaborator "sharp")) /\
   job_ran (queueImage sample_builtins sample_broken_world
              (cache_after (queueImage sample_builtins sample_broken_world empty_cache
                              (SrcString "logo.svg") None))
              (SrcString "logo.svg") None) = false /\
   cache_after (queueImage sample_builtins sample_broken_world
                  (cache_after (queueImage sample_builtins sample_broken_world empty_cache
                                  (SrcString "logo.svg") None))
                  (SrcString "logo.svg") None)
   = cache_after (queueImage sample_builtins sample_broken_world empty_cache
                    (SrcString "logo.svg") None)).
Proof.
  split; [reflexivity|]. split; [reflexivity|]. split; [vm_compute; reflexivity|].
  split; [vm_compute; reflexivity|].
  apply (C6_failure_stays_cached sample_builtins sample_broken_world empty_cache
           (SrcString "logo.svg") None (SrcString "logo.svg") None
           sample_image sample_image sample_key (ECollaborator "sharp")).
  - reflexivity.
  - reflexivity.
  - reflexivity.
  - reflexivity.
  - vm_compute; reflexivity.
  - vm_compute; reflexivity.
  - vm_compute; reflexivity.
Defined.

(** Against C6 as stated: the codec fails on the first call; the second call,
    made once the codec works again, is handed the cached rejection and its
    job never runs. *)
Lemma C6_counterexample :
  returned (queueImage sample_builtins sample_broken_world empty_cache
              (SrcString "logo.svg") None) = Ok (Throw (ECollaborator "sharp")) /\
  returned (queueImage sample_builtins (sample_world false)
              (cache_after (queueImage sample_builtins sample_broken_world empty_cache
                              (SrcString "logo.svg") None))
              (SrcString "logo.svg") None) = Ok (Throw (ECollaborator "sharp")) /\
  job_ran (queueImage sample_builtins (sample_world false)
             (cache_after (queueImage sample_builtins sample_broken_world empty_cache
                             (SrcString "logo.svg") None))
             (SrcString "logo.svg") None) = false /\
  (exists plan,
      returned (queueImage sample_builtins (sample_world false) empty_cache
                  (SrcString "logo.svg") None) = Ok (Ok plan)).
Proof.
  split; [vm_compute; reflexivity|]. split; [vm_compute; reflexivity|].
  split; [vm_compute; reflexivity|]. eexists. vm_compute. reflexivity.
Qed.

(** ** The content hash *)

Section HashFacts.
Variable B : Builtins.
Variable w : World.

Lemma getHash_fresh img l :
  computedHash img = None ->
  fst (getHash B w (mkState img l))
  = match hash_data w img with
    | Ok data =>
        truncate_hash (prop "hashLength" (options img))
          (url_safe (createHash_sha256_base64 B
                       (data +:+ JSON_stringify B (hashObject B (options img)))))
    | Throw e => Throw e
    end.
Proof.
  intros Hc. unfold getHash, computeHash, hash_data, getFileContents, bind, this, ret, emit,
    set_this, throw, lift.
  cbn [self log]. rewrite Hc.
  repeat (cbn [self log fst snd src_path options];
          match goal with
          | |- context [match ?x with _ => _ end] =>
              match type of x with
              | result _ => destruct x
              | bool => destruct x
              | option _ => destruct x
              | source => destruct x
              end
          end);
    reflexivity.
Qed.







Lemma hash_data_local img bytes :
  local_bytes B w (src img) = Some bytes -> isRemoteUrl img = is_remote B (src img) ->
  _contents img = None ->
  hash_data w img
  = Ok (if String.eqb (String.substring 0 5 (trim bytes)) "<svg "
           || String.eqb (String.substring 0 5 (trim bytes)) "<?xml"
        then strip_newlines bytes else bytes).
Proof.
  unfold local_bytes, hash_data. intros H Hr Hc. rewrite Hr, Hc.
  destruct (is_remote B (src img)); [discriminate|].
  destruct (fs_existsSync w (src_path (src img))); [|discriminate]. simpl in H.
  destruct (src img) as [p|b]; simpl.
  - rewrite H. reflexivity.
  - injection H as ->. reflexivity.
Qed.



End HashFacts.

(** ** Claim on the content hash *)



(** ** The plan of an SVG source *)

Lemma sort_svg_first_head l :
  In (Some "svg") l -> exists rest, js_sort svg_first l = Some "svg" :: rest.
Proof.
  induction l as [|x l IH]; simpl; [tauto|]. intros [->|Hin].
  - destruct (js_sort svg_first l) as [|y r]; simpl; eauto.
  - destruct (IH Hin) as (rest & ->). simpl. unfold svg_first at 1.
    destruct (is_fmt x "svg") eqn:E.
    + destruct x as [f|]; [|discriminate]. simpl in E. apply String.eqb_eq in E. subst f.
      simpl. eauto.
    + simpl. eauto.
Qed.

Lemma js_set_keeps_head {A : Type} (eqb : A -> A -> bool) (l acc : list A) (x : A) :
  exists r, fold_left (set_add eqb) l (x :: acc) = x :: r.
Proof.
  revert acc. induction l as [|y l IH]; intros acc; simpl; [eauto|].
  unfold set_add at 2. destruct (existsb (eqb y) (x :: acc)); [apply IH|].
  simpl. apply IH.
Qed.

Lemma js_set_In {A : Type} (eqb : A -> A -> bool) (l : list A) (x : A) :
  In x (js_set eqb l) -> In x l.
Proof.
  unfold js_set.
  assert (H : forall acc, In x (fold_left (set_add eqb) l acc) -> In x acc \/ In x l).
  { induction l as [|y l IH]; intros acc; simpl; [auto|]. intros Hin.
    apply IH in Hin. destruct Hin as [Hin|Hin]; [|auto].
    unfold set_add in Hin. destruct (existsb (eqb y) acc); [auto|].
    apply List.in_app_or in Hin. destruct Hin as [?|[<-|[]]]; auto. }
  intros Hin. apply H in Hin. destruct Hin as [[]|?]. assumption.
Qed.

(** Outside the "size" mode a resolved list with svg in it starts with
    svg. *)
Lemma getFormatsArray_svg_first formats autoFormat svgShortCircuit :
  is_str svgShortCircuit "size" = false ->
  In (Some "svg") (getFormatsArray formats autoFormat svgShortCircuit) ->
  exists rest, getFormatsArray formats autoFormat svgShortCircuit = Some "svg" :: rest.
Proof.
  intros Hsc. unfold getFormatsArray. rewrite Hsc. cbn [negb].
  set (entries := match formats with
                  | FormatsNone => []
                  | FormatsString s => if String.eqb s "" then [] else map Some (split_comma s)
                  | FormatsArray l => l
                  end).
  destruct entries as [|e entries0] eqn:E; [intros []|]. rewrite <- E. clear E.
  intros Hin. apply js_set_In in Hin.
  rewrite js_sort_In in Hin. apply sort_svg_first_head in Hin.
  destruct Hin as (rest & ->). unfold js_set. simpl.
  apply (js_set_keeps_head opt_str_eqb rest [] (Some "svg")).
Qed.

Lemma transform_plain svgShortCircuit files formats :
  is_str svgShortCircuit "size" = false ->
  _transformRawFiles svgShortCircuit files formats
  = sort_groups (fold_left push_file files (init_groups formats)).
Proof.
  intros H. unfold _transformRawFiles. rewrite H.
  destruct (svg_entry_size _) as [[? ?]|]; reflexivity.
Qed.

Lemma jobs_none (b : plan) :
  (forall t g, In (t, g) b -> g = []) -> plan_jobs (sort_groups b) = [].
Proof.
  induction b as [|[t g] b IH]; intros H; [reflexivity|].
  unfold plan_jobs, sort_groups in *. simpl.
  rewrite (H t g (or_introl eq_refl)). simpl. apply IH. intros; eapply H; right; eauto.
Qed.

Lemma jobs_single (b : plan) (x : Stat) :
  List.NoDup (obj_keys b) ->
  (forall t g, In (t, g) b -> g = if String.eqb "svg" t then [x] else []) ->
  In "svg" (obj_keys b) ->
  plan_jobs (sort_groups b) = [("svg", x)].
Proof.
  induction b as [|[t g] b IH]; intros Hnd Hg Hin; [destruct Hin|].
  inversion Hnd as [|? ? Hk Hnd']; subst.
  pose proof (Hg t g (or_introl eq_refl)) as Ht.
  change (plan_jobs (sort_groups ((t, g) :: b)))
    with (map (pair t) (js_sort width_cmp g) ++ plan_jobs (sort_groups b)).
  destruct (String.eqb "svg" t) eqn:E.
  - apply String.eqb_eq in E. subst t g. simpl.
    rewrite jobs_none; [reflexivity|].
    intros t g Hing. rewrite (Hg t g (or_intror Hing)).
    destruct (String.eqb "svg" t) eqn:E; [|reflexivity].
    apply String.eqb_eq in E. subst t. exfalso. apply Hk.
    change "svg" with (fst ("svg", g)). apply List.in_map, Hing.
  - subst g. simpl. apply IH; [exact Hnd'|intros; apply Hg; right; assumption|].
    destruct Hin as [Hin|Hin]; [|exact Hin].
    simpl in Hin. subst t. rewrite String.eqb_refl in E. discriminate.
Qed.

(** The plan made of a single SVG stat outside the "size" mode. *)
Lemma single_svg_plan svgShortCircuit st formats :
  is_str svgShortCircuit "size" = false -> format st = "svg" ->
  plan_jobs (_transformRawFiles svgShortCircuit [st] formats) = [("svg", st)] /\
  In ("svg", [st]) (_transformRawFiles svgShortCircuit [st] formats) /\
  (forall t g, In (t, g) (_transformRawFiles svgShortCircuit [st] formats) ->
               t <> "svg" -> g = []).
Proof.
  intros Hsc Hfmt. rewrite (transform_plain _ _ _ Hsc).
  destruct (grouped_files [st] formats) as (Hnd & Hg & Hk).
  set (b := fold_left push_file [st] (init_groups formats)) in *.
  assert (Hg' : forall t g, In (t, g) b -> g = if String.eqb "svg" t then [st] else []).
  { intros t g Hin. rewrite (Hg t g Hin). simpl. rewrite Hfmt. reflexivity. }
  assert (Hsvg : In "svg" (obj_keys b)).
  { rewrite <- Hfmt. apply Hk. left. reflexivity. }
  split; [apply jobs_single; assumption|]. split.
  - unfold obj_keys in Hsvg. apply List.in_map_iff in Hsvg.
    destruct Hsvg as ([t g] & Ht & Hin). simpl in Ht. subst t.
    pose proof (Hg' _ _ Hin) as Hgs. simpl in Hgs. subst g.
    unfold sort_groups. apply List.in_map_iff. exists ("svg", [st]). split; [reflexivity|exact Hin].
  - intros t g Hin Hne. apply sort_groups_In in Hin. destruct Hin as (g0 & Hin & ->).
    rewrite (Hg' _ _ Hin). destruct (String.eqb "svg" t) eqn:E; [|reflexivity].
    apply String.eqb_eq in E. congruence.
Qed.

Section StatFacts.
Variable B : Builtins.
Variable w : World.

Lemma getStat_format fmt width height s st s' :
  getStat B w fmt width height s = (Ok st, s') -> format st = fmt.
Proof.
  unfold getStat, bind, this, ret, throw, lift. cbn [self].
  repeat match goal with
         | |- context [match ?x with _ => _ end] =>
             match type of x with
             | result _ => destruct x
             | (_ * _)%type => destruct x
             | bool => destruct x
             | option _ => destruct x
             | jsval => destruct x
             end
         end; try discriminate; intros [= <- _]; reflexivity.
Qed.

Lemma with_metadata_size_format metadata st :
  format (with_metadata_size metadata st) = format st.
Proof.
  unfold with_metadata_size. destruct (m_size metadata) as [n|]; [|reflexivity].
  destruct (n =? 0); reflexivity.
Qed.

Lemma oriented_format metadata : m_format (oriented metadata) = m_format metadata.
Proof.
  unfold oriented. destruct (needsRotation _); cbn [m_pageHeight];
    destruct (m_pageHeight metadata) as [h|]; try reflexivity;
    destruct (h =? 0); reflexivity.
Qed.
End StatFacts.

Section PlanFacts.
Variable B : Builtins.
Variable w : World.

Lemma is_true_not_size v : is_true v = true -> is_str v "size" = false.
Proof. destruct v as [| |[|]| | | | | |]; try discriminate. reflexivity. Qed.

Lemma with_metadata_size_oriented metadata st :
  with_metadata_size (oriented metadata) st = with_metadata_size metadata st.
Proof.
  unfold with_metadata_size, oriented.
  destruct (needsRotation _); cbn [m_pageHeight m_size];
    destruct (m_pageHeight metadata) as [h|]; try reflexivity;
    destruct (h =? 0); reflexivity.
Qed.

(** The first turn of the loop on an SVG source whose formats start with
    svg, under svgShortCircuit true: one stat, then [break]. *)
Lemma loop_svg_break metadata rest results s :
  m_format metadata = Some "svg" ->
  is_true (prop "svgShortCircuit" (options (self s))) = true ->
  fullStats_loop B w metadata (Some "svg" :: rest) results s
  = match getStat B w "svg" (m_width metadata) (m_height metadata) s with
    | (Ok st, s') => (Ok (results ++ [with_metadata_size metadata st]), s')
    | (Throw e, s') => (Throw e, s')
    end.
Proof.
  intros Hm Hsc. cbn [fullStats_loop].
  change (negb (str_truthy (Some "svg")) || is_fmt (Some "svg") "auto") with false.
  cbv iota. unfold bind at 1. unfold this at 1. cbn [self].
  change (String.eqb "svg" "svg") with true. cbv iota.
  unfold nativeFormat. rewrite Hm.
  change (str_truthy (Some "svg")) with true. cbv iota.
  change (is_fmt (Some "svg") "svg") with true. cbv iota.
  unfold bind. destruct (getStat B w "svg" (m_width metadata) (m_height metadata) s)
    as [[st|e] s']; [|reflexivity].
  rewrite Hsc. reflexivity.
Qed.

(** ** Claim on the SVG short circuit *)

(** C5, as the code has it: for a source whose native format is SVG, options
    with svgShortCircuit === true and resolved formats that include svg, the
    full-stats plan holds exactly the single svg entry: the loop stops after
    it, every other group is empty and no raster stat is computed. *)
Theorem C5_svg_short_circuit s metadata formats :
  m_format metadata = Some "svg" ->
  is_true (prop "svgShortCircuit" (options (self s))) = true ->
  formats_of (prop "formats" (options (self s))) = Some formats ->
  In (Some "svg")
     (getFormatsArray formats (Some "svg") (prop "svgShortCircuit" (options (self s)))) ->
  match getStat B w "svg" (m_width (oriented metadata)) (m_height (oriented metadata)) s with
  | (Ok svgStats, s') =>
      exists plan,
        getFullStats B w metadata s = (Ok plan, s') /\
        plan_jobs plan = [("svg", with_metadata_size metadata svgStats)] /\
        In ("svg", [with_metadata_size metadata svgStats]) plan /\
        (forall t g, In (t, g) plan -> t <> "svg" -> g = [])
  | (Throw e, s') => getFullStats B w metadata s = (Throw e, s')
  end.
Proof.
  intros Hm Hsc Hf Hin.
  pose proof (is_true_not_size _ Hsc) as Hsize.
  destruct (getFormatsArray_svg_first _ _ _ Hsize Hin) as (rest & Hout).
  assert (Hfull : getFullStats B w metadata s
                  = match fullStats_loop B w (oriented metadata) (Some "svg" :: rest) [] s with
                    | (Ok results, s') =>
                        (Ok (_transformRawFiles (prop "svgShortCircuit" (options (self s)))
                               results (Some "svg" :: rest)), s')
                    | (Throw e, s') => (Throw e, s')
                    end).
  { unfold getFullStats, bind, this, lift, decoded, ret. cbn [self]. rewrite Hf.
    unfold nativeFormat. rewrite Hm.
    change (str_truthy (Some "svg")) with true. cbv iota. rewrite Hout.
    destruct (fullStats_loop _ _ _ _ _ _) as [[results|e] s']; reflexivity. }
  rewrite Hfull, loop_svg_break; [|rewrite oriented_format; exact Hm|exact Hsc].
  destruct (getStat B w "svg" (m_width (oriented metadata)) (m_height (oriented metadata)) s)
    as [[st|e] s'] eqn:G; [|reflexivity].
  rewrite with_metadata_size_oriented. simpl app.
  eexists. split; [reflexivity|].
  apply single_svg_plan; [exact Hsize|].
  rewrite with_metadata_size_format. eapply getStat_format, G.
Qed.
End PlanFacts.

Lemma C5_svg_short_circuit_witness :
  m_format sample_metadata = Some "svg" /\
  is_true (prop "svgShortCircuit" (options (self sample_svg_request))) = true /\
  formats_of (prop "formats" (options (self sample_svg_request)))
  = Some (FormatsArray [Some "png"; Some "svg"]) /\
  In (Some "svg")
     (getFormatsArray (FormatsArray [Some "png"; Some "svg"]) (Some "svg")
        (prop "svgShortCircuit" (options (self sample_svg_request)))) /\
  match getStat sample_builtins (sample_world false) "svg"
          (m_width (oriented sample_metadata)) (m_height (oriented sample_metadata))
          sample_svg_request with
  | (Ok svgStats, s') =>
      exists plan,
        getFullStats sample_builtins (sample_world false) sample_metadata sample_svg_request
        = (Ok plan, s') /\
        plan_jobs plan = [("svg", with_metadata_size sample_metadata svgStats)] /\
        In ("svg", [with_metadata_size sample_metadata svgStats]) plan /\
        (forall t g, In (t, g) plan -> t <> "svg" -> g = [])
  | (Throw e, s') =>
      getFullStats sample_builtins (sample_world false) sample_metadata sample_svg_request
      = (Throw e, s')
  end.
Proof.
  split; [reflexivity|]. split; [reflexivity|]. split; [reflexivity|].
  split; [vm_compute; auto|].
  apply (C5_svg_short_circuit sample_builtins (sample_world false) sample_svg_request
           sample_metadata (FormatsArray [Some "png"; Some "svg"])).
  - reflexivity.
  - reflexivity.
  - reflexivity.
  - vm_compute. auto.
Defined.

(** Against C5 as stated: an SVG source with svgShortCircuit true and the
    default formats [webp, jpeg]: no svg entry, two raster stats. *)
Lemma C5_counterexample :
  m_format sample_metadata = Some "svg" /\
  is_true (prop "svgShortCircuit" (options (self sample_default_request))) = true /\
  exists plan,
    fst (getFullStats sample_builtins (sample_world false) sample_metadata
           sample_default_request) = Ok plan /\
    map (fun j => (fst j, format (snd j), width (snd j))) (plan_jobs plan)
    = [("webp", "webp", 100); ("jpeg", "jpeg", 100)].
Proof.
  split; [reflexivity|]. split; [reflexivity|].
  eexists. split; vm_compute; reflexivity.
Qed.

(** ** The outside calls of a method *)

Section Only.
Variable P : event -> bool.

Lemma only_ret {A : Type} (a : A) : only P (ret a).
Proof. intros s. exists []. simpl. rewrite List.app_nil_r. auto. Qed.

Lemma only_throw {A : Type} (e : error) : only P (@throw A e).
Proof. intros s. exists []. simpl. rewrite List.app_nil_r. auto. Qed.

Lemma only_lift {A : Type} (r : result A) : only P (lift r).
Proof. intros s. exists []. simpl. rewrite List.app_nil_r. auto. Qed.

Lemma only_this : only P this.
Proof. intros s. exists []. simpl. rewrite List.app_nil_r. auto. Qed.

Lemma only_set_this img : only P (set_this img).
Proof. intros s. exists []. simpl. rewrite List.app_nil_r. auto. Qed.

Lemma only_emit e : P e = true -> only P (emit e).
Proof. intros H s. exists [e]. simpl. rewrite H. auto. Qed.

Lemma only_bind {A C : Type} (m : M A) (k : A -> M C) :
  only P m -> (forall a, only P (k a)) -> only P (bind m k).
Proof.
  intros Hm Hk s. unfold bind. destruct (Hm s) as (evs & Hl & Hp).
  destruct (m s) as [[a|e] s1]; simpl in *.
  - destruct (Hk a s1) as (evs' & Hl' & Hp'). exists (evs ++ evs').
    rewrite Hl', Hl, List.app_assoc, List.forallb_app, Hp, Hp'. auto.
  - exists evs. auto.
Qed.

Lemma only_mapM {A C : Type} (f : A -> M C) (l : list A) :
  (forall a, only P (f a)) -> only P (mapM f l).
Proof.
  intros Hf. induction l as [|x l IH]; simpl.
  - apply only_ret.
  - apply only_bind; [apply Hf|]. intros y.
    apply only_bind; [apply IH|]. intros ys. apply only_ret.
Qed.

Lemma only_on {A : Type} (m : M A) img : only P m -> forallb P (snd (on img m)) = true.
Proof.
  intros H. unfold on. destruct (H (mkState img [])) as (evs & Hl & Hp).
  simpl in *. rewrite Hl. exact Hp.
Qed.
End Only.

Lemma only_weaken (P Q : event -> bool) {A : Type} (m : M A) :
  (forall e, P e = true -> Q e = true) -> only P m -> only Q m.
Proof.
  intros HPQ Hm s. destruct (Hm s) as (evs & Hl & Hp). exists evs. split; [exact Hl|].
  rewrite List.forallb_forall in *. auto.
Qed.

Create HintDb only discriminated.
#[local] Hint Resolve only_ret only_throw only_lift only_this only_set_this : only.

(** One step through a method body. *)
Ltac only_step :=
  match goal with
  | |- only _ (bind _ _) => apply only_bind; [|intros ?]
  | |- only _ (emit _) => apply only_emit; reflexivity
  | |- only _ (mapM _ _) => apply only_mapM; intros ?
  | |- only _ _ => solve [auto with only]
  | |- only _ (match ?x with _ => _ end) => destruct x
  | |- only _ (let _ := _ in _) => cbv zeta
  end.

Section ProbeFacts.
Variable B : Builtins.
Variable w : World.

Lemma only_getInMemoryCacheKey : only is_fs_probe (getInMemoryCacheKey B w).
Proof. unfold getInMemoryCacheKey. repeat only_step. Qed.

Lemma only_getFileContents : only is_fs_probe (getFileContents w).
Proof. unfold getFileContents. repeat only_step. Qed.
Hint Resolve only_getFileContents : only.

Lemma only_computeHash : only is_fs_probe (computeHash B w).
Proof. unfold computeHash. repeat only_step. Qed.
Hint Resolve only_computeHash : only.

Lemma only_getHash : only is_fs_probe (getHash B w).
Proof. unfold getHash. repeat only_step. Qed.
Hint Resolve only_getHash : only.

Lemma only_getStat fmt width height : only is_fs_probe (getStat B w fmt width height).
Proof. unfold getStat. repeat only_step. Qed.
Hint Resolve only_getStat : only.

Lemma only_fullStats_loop metadata outputFormats results :
  only is_fs_probe (fullStats_loop B w metadata outputFormats results).
Proof.
  revert results. induction outputFormats as [|outputFormat rest IH]; intros results;
    cbn [fullStats_loop]; repeat only_step; apply IH.
Qed.
Hint Resolve only_fullStats_loop : only.

(** Planning looks at the file system and nothing else. *)
Lemma only_getFullStats metadata : only is_fs_probe (getFullStats B w metadata).
Proof. unfold getFullStats. repeat only_step. Qed.
End ProbeFacts.

Section StatsOnlyFacts.
Variable B : Builtins.
Variable w : World.

Lemma is_fs_probe_is_probe e : is_fs_probe e = true -> is_probe e = true.
Proof. destruct e; simpl; congruence. Qed.

Lemma is_probe_not_codec evs : forallb is_probe evs = true -> existsb is_codec evs = false.
Proof.
  induction evs as [|e evs IH]; simpl; [reflexivity|].
  intros H. apply andb_true_iff in H. destruct H as [He H]. rewrite (IH H).
  destruct e; simpl in *; congruence.
Qed.

(** The job of a string source under statsOnly: the caller's metadata
    for a remote URL, the dimension probe for a local path, then the
    plan. *)
Lemma only_job_statsOnly s o :
  truthy (prop "statsOnly" o) = true ->
  only (if Util_isRemoteUrl B s then is_fs_probe else is_probe)
       (job B w (SrcString s) (Some o)).
Proof.
  intros H. unfold job. rewrite H. destruct (Util_isRemoteUrl B s).
  - repeat only_step; apply only_getFullStats.
  - repeat only_step.
    apply (only_weaken is_fs_probe); [apply is_fs_probe_is_probe|apply only_getFullStats].
Qed.

(** ** Claim on statsOnly *)

(** C8, as the code has it: for a call of the entry point with a string source
    (local path or remote URL) and statsOnly set in its options, the codec
    engine is never invoked: a remote source is planned from the caller's
    remoteImageMetadata with look-ups on the file system only, a local source
    adds the dimension probe. *)
Theorem C8_statsOnly_no_codec memCache s o :
  truthy (prop "statsOnly" o) = true ->
  forallb (if Util_isRemoteUrl B s then is_fs_probe else is_probe)
          (events (queueImage B w memCache (SrcString s) (Some o))) = true /\
  existsb is_codec (events (queueImage B w memCache (SrcString s) (Some o))) = false.
Proof.
  intros H.
  assert (Hw : forall evs, forallb is_fs_probe evs = true ->
                 forallb (if Util_isRemoteUrl B s then is_fs_probe else is_probe) evs = true).
  { intros evs He. destruct (Util_isRemoteUrl B s); [exact He|].
    rewrite List.forallb_forall in *. intros e Hin. apply is_fs_probe_is_probe; auto. }
  assert (Hall : forallb (if Util_isRemoteUrl B s then is_fs_probe else is_probe)
                   (events (queueImage B w memCache (SrcString s) (Some o))) = true).
  { unfold queueImage.
    destruct (new_Image B (SrcString s) (Some o)) as [img|e]; [|reflexivity].
    assert (Hk : forallb is_fs_probe
                   (snd (if truthy (prop "useCache" (options img))
                         then on img (getInMemoryCacheKey B w) else (Ok "", []))) = true).
    { destruct (truthy (prop "useCache" (options img))); [|reflexivity].
      apply only_on, only_getInMemoryCacheKey. }
    destruct (if truthy (prop "useCache" (options img))
              then on img (getInMemoryCacheKey B w) else (Ok "", [])) as [[key|e] evs];
      cbn [fst snd] in *; [|apply Hw, Hk].
    destruct (if truthy (prop "useCache" (options img))
              then MemoryCache_get key memCache else None); cbn [events]; [apply Hw, Hk|].
    rewrite List.forallb_app, (Hw _ Hk). simpl.
    apply only_on, only_job_statsOnly, H. }
  split; [exact Hall|]. apply is_probe_not_codec.
  destruct (Util_isRemoteUrl B s); [|exact Hall].
  rewrite List.forallb_forall in *. intros e Hin. apply is_fs_probe_is_probe; auto.
Qed.
End StatsOnlyFacts.

Lemma C8_statsOnly_no_codec_witness :
  truthy (prop "statsOnly" [("statsOnly", VBool true)]) = true /\
  (forallb (if Util_isRemoteUrl sample_builtins "logo.svg" then is_fs_probe else is_probe)
           (events (queueImage sample_builtins (sample_world false) empty_cache
                      (SrcString "logo.svg") (Some [("statsOnly", VBool true)]))) = true /\
   existsb is_codec
           (events (queueImage sample_builtins (sample_world false) empty_cache
                      (SrcString "logo.svg") (Some [("statsOnly", VBool true)]))) = false).
Proof.
  split; [reflexivity|].
  apply (C8_statsOnly_no_codec sample_builtins (sample_world false) empty_cache
           "logo.svg" [("statsOnly", VBool true)]).
  reflexivity.
Defined.

(** Against C8 as stated: with a buffer for a source the statsOnly option is
    passed over and the codec is asked for the metadata and for both
    encodings. *)
Lemma C8_counterexample :
  truthy (prop "statsOnly" [("statsOnly", VBool true)]) = true /\
  List.filter is_codec
    (events (queueImage sample_builtins (sample_world false) empty_cache
               (SrcBuffer "<svg ></svg>") (Some [("statsOnly", VBool true)])))
  = [ EvSharpMetadata (SrcBuffer "<svg ></svg>");
      EvSharpToFile (mkOps None false (Some (100, false)) (Some ("webp", VObj [])))
                    "img/<svg ><_sv-100.webp";
      EvSharpToFile (mkOps None false (Some (100, false)) (Some ("jpeg", VObj [])))
                    "img/<svg ><_sv-100.jpeg" ].
Proof.
  split; [reflexivity|]. vm_compute. reflexivity.
Qed.

(** ** Claim on dryRun *)

(** C7, where the code departs from it: with dryRun set and the outputs of an
    earlier run on disk, no file or directory is written, but the stats do not
    carry the encoded output: for a remote source their buffer is [false], for
    a local file it is the contents of the source file. *)
Theorem C7_dryRun_cached_buffer :
  (exists plan,
      returned (queueImage sample_builtins (sample_world true) empty_cache
                  (SrcString "https://example.com/logo.svg") (Some [("dryRun", VBool true)]))
      = Ok (Ok plan) /\
      map (fun j => (fst j, buffer (snd j))) (plan_jobs plan)
      = [("webp", Some (VBool false)); ("jpeg", Some (VBool false))]) /\
  (exists plan,
      returned (queueImage sample_builtins (sample_world true) empty_cache
                  (SrcString "logo.svg") (Some [("dryRun", VBool true)]))
      = Ok (Ok plan) /\
      map (fun j => (fst j, buffer (snd j))) (plan_jobs plan)
      = [("webp", Some (VBuf "<svg ></svg>")); ("jpeg", Some (VBuf "<svg ></svg>"))]) /\
  existsb is_write
    (events (queueImage sample_builtins (sample_world true) empty_cache
               (SrcString "https://example.com/logo.svg") (Some [("dryRun", VBool true)])))
  = false.
Proof.
  split; [eexists; split; vm_compute; reflexivity|].
  split; [eexists; split; vm_compute; reflexivity|].
  vm_compute. reflexivity.
Qed.

(** ** The plans of the entry points *)


Section ReturnedFacts.
Variable B : Builtins.
Variable w : World.




Lemma queueImage_ran memCache src0 opts img :
  new_Image B src0 opts = Ok img ->
  job_ran (queueImage B w memCache src0 opts) = true ->
  returned (queueImage B w memCache src0 opts) = Ok (fst (on img (job B w src0 opts))).
Proof.
  intros N. unfold queueImage. rewrite N.
  destruct (fst _) as [key|e]; [|discriminate].
  destruct (if truthy _ then MemoryCache_get key memCache else None); [discriminate|].
  reflexivity.
Qed.


(** ** Claim on the order within a group *)

End ReturnedFacts.





(** ** Dry runs write nothing *)

Section Keeps.
Variable I : Image -> Prop.
Variable P : event -> bool.

Lemma keeps_ret {A : Type} (a : A) : keeps I P (ret a).
Proof. intros s H. split; [exact H|]. exists []. simpl. rewrite List.app_nil_r. auto. Qed.

Lemma keeps_throw {A : Type} (e : error) : keeps I P (@throw A e).
Proof. intros s H. split; [exact H|]. exists []. simpl. rewrite List.app_nil_r. auto. Qed.

Lemma keeps_lift {A : Type} (r : result A) : keeps I P (lift r).
Proof. intros s H. split; [exact H|]. exists []. simpl. rewrite List.app_nil_r. auto. Qed.

Lemma keeps_emit e : P e = true -> keeps I P (emit e).
Proof. intros He s H. split; [exact H|]. exists [e]. simpl. rewrite He. auto. Qed.

Lemma keeps_set_this img : I img -> keeps I P (set_this img).
Proof.
  intros Hi s H. split; [exact Hi|]. exists []. simpl. rewrite List.app_nil_r. auto.
Qed.

Lemma keeps_bind {A C : Type} (m : M A) (k : A -> M C) :
  keeps I P m -> (forall a, keeps I P (k a)) -> keeps I P (bind m k).
Proof.
  intros Hm Hk s H. unfold bind. destruct (Hm s H) as (Hi & evs & Hl & Hp).
  destruct (m s) as [[a|e] s1]; simpl in *.
  - destruct (Hk a s1 Hi) as (Hi' & evs' & Hl' & Hp'). split; [exact Hi'|].
    exists (evs ++ evs').
    rewrite Hl', Hl, List.app_assoc, List.forallb_app, Hp, Hp'. auto.
  - split; [exact Hi|]. exists evs. auto.
Qed.

Lemma keeps_this_bind {C : Type} (k : Image -> M C) :
  (forall img, I img -> keeps I P (k img)) -> keeps I P (bind this k).
Proof.
  intros Hk s H. unfold bind, this. apply (Hk (self s) H s H).
Qed.

Lemma keeps_mapM {A C : Type} (f : A -> M C) (l : list A) :
  (forall a, keeps I P (f a)) -> keeps I P (mapM f l).
Proof.
  intros Hf. induction l as [|x l IH]; simpl.
  - apply keeps_ret.
  - apply keeps_bind; [apply Hf|]. intros y.
    apply keeps_bind; [apply IH|]. intros ys. apply keeps_ret.
Qed.

Lemma keeps_on {A : Type} (m : M A) img :
  I img -> keeps I P m -> forallb P (snd (on img m)) = true.
Proof.
  intros Hi H. unfold on. destruct (H (mkState img []) Hi) as (_ & evs & Hl & Hp).
  simpl in *. rewrite Hl. exact Hp.
Qed.
End Keeps.

Create HintDb keeps discriminated.
#[local] Hint Resolve keeps_ret keeps_throw keeps_lift : keeps.

(** One step through a method body of a dry run. *)
Ltac keeps_step :=
  match goal with
  | |- keeps _ _ (bind this _) => apply keeps_this_bind; intros ? ?
  | |- keeps _ _ (bind _ _) => apply keeps_bind; [|intros ?]
  | |- keeps _ _ (emit _) => apply keeps_emit; reflexivity
  | |- keeps _ _ (set_this _) => apply keeps_set_this; assumption
  | |- keeps _ _ (mapM _ _) => apply keeps_mapM; intros ?
  | |- keeps _ _ _ => solve [auto with keeps]
  | H : dry ?img |- context [truthy (prop "dryRun" (options ?img))] =>
      rewrite (H : truthy (prop "dryRun" (options img)) = true)
  | |- keeps _ _ (match ?x with _ => _ end) => destruct x
  | |- keeps _ _ (let _ := _ in _) => cbv zeta
  end.

Section DryFacts.
Variable B : Builtins.
Variable w : World.

Lemma dry_getInMemoryCacheKey : keeps dry no_write (getInMemoryCacheKey B w).
Proof. unfold getInMemoryCacheKey. repeat keeps_step. Qed.

Lemma dry_getFileContents : keeps dry no_write (getFileContents w).
Proof. unfold getFileContents. repeat keeps_step. Qed.
Hint Resolve dry_getFileContents : keeps.

Lemma dry_computeHash : keeps dry no_write (computeHash B w).
Proof. unfold computeHash. repeat keeps_step. Qed.
Hint Resolve dry_computeHash : keeps.

Lemma dry_getHash : keeps dry no_write (getHash B w).
Proof. unfold getHash. repeat keeps_step. Qed.
Hint Resolve dry_getHash : keeps.

Lemma dry_getStat fmt width height : keeps dry no_write (getStat B w fmt width height).
Proof. unfold getStat. repeat keeps_step. Qed.
Hint Resolve dry_getStat : keeps.

Lemma dry_fullStats_loop metadata outputFormats results :
  keeps dry no_write (fullStats_loop B w metadata outputFormats results).
Proof.
  revert results. induction outputFormats as [|outputFormat rest IH]; intros results;
    cbn [fullStats_loop]; repeat keeps_step; apply IH.
Qed.
Hint Resolve dry_fullStats_loop : keeps.

Lemma dry_getFullStats metadata : keeps dry no_write (getFullStats B w metadata).
Proof. unfold getFullStats. repeat keeps_step. Qed.
Hint Resolve dry_getFullStats : keeps.

(** Under dryRun the loop body makes no directory and hands the encoded
    bytes back instead of a file. *)
Lemma dry_materialize input sharpOptions metadata outputFormat stat :
  keeps dry no_write (materialize B w input sharpOptions metadata outputFormat stat).
Proof. unfold materialize. repeat keeps_step. Qed.
Hint Resolve dry_materialize : keeps.

Lemma dry_materialize_all input sharpOptions metadata jobs :
  keeps dry no_write (materialize_all B w input sharpOptions metadata jobs).
Proof.
  induction jobs as [|[outputFormat stat] jobs IH]; cbn [materialize_all];
    repeat keeps_step.
Qed.
Hint Resolve dry_materialize_all : keeps.

Lemma dry_resize input : keeps dry no_write (resize B w input).
Proof. unfold resize. repeat keeps_step. Qed.
Hint Resolve dry_resize : keeps.

Lemma dry_job src0 opts : keeps dry no_write (job B w src0 opts).
Proof. unfold job, getInput. repeat keeps_step. Qed.

(** For a derivation with dryRun set, no call of the entry point creates a
    file or a directory. *)
Lemma dryRun_writes_nothing memCache src0 opts img :
  new_Image B src0 opts = Ok img -> dry img ->
  existsb is_write (events (queueImage B w memCache src0 opts)) = false.
Proof.
  intros N Hd.
  assert (Hno : forall evs, forallb no_write evs = true -> existsb is_write evs = false).
  { induction evs as [|e evs IH]; simpl; [reflexivity|]. unfold no_write at 1.
    intros H. apply andb_true_iff in H. destruct H as [He H]. rewrite (IH H).
    destruct (is_write e); [discriminate|reflexivity]. }
  apply Hno. unfold queueImage. rewrite N.
  assert (Hk : forallb no_write
                 (snd (if truthy (prop "useCache" (options img))
                       then on img (getInMemoryCacheKey B w) else (Ok "", []))) = true).
  { destruct (truthy (prop "useCache" (options img))); [|reflexivity].
    apply (keeps_on dry); [exact Hd|apply dry_getInMemoryCacheKey]. }
  destruct (if truthy (prop "useCache" (options img))
            then on img (getInMemoryCacheKey B w) else (Ok "", [])) as [[key|e] evs];
    cbn [fst snd] in *; [|exact Hk].
  destruct (if truthy (prop "useCache" (options img))
            then MemoryCache_get key memCache else None); cbn [events]; [exact Hk|].
  rewrite List.forallb_app, Hk. simpl.
  apply (keeps_on dry); [exact Hd|apply dry_job].
Qed.
End DryFacts.

(** * Further properties of the code *)

(** ** Sets and sorted arrays *)

Section SetFacts.
Context {A : Type} (eqb : A -> A -> bool).
Hypothesis eqb_spec : forall x y, eqb x y = true <-> x = y.

Lemma existsb_eqb_In x (l : list A) : existsb (eqb x) l = true <-> In x l.
Proof.
  rewrite List.existsb_exists. split.
  - intros (y & Hy & He). apply eqb_spec in He. subst y. exact Hy.
  - intros H. exists x. split; [exact H|]. apply eqb_spec. reflexivity.
Qed.

Lemma set_fold_NoDup (l acc : list A) :
  List.NoDup acc -> List.NoDup (fold_left (set_add eqb) l acc).
Proof.
  revert acc. induction l as [|x l IH]; intros acc Hnd; simpl; [exact Hnd|].
  apply IH. unfold set_add. destruct (existsb (eqb x) acc) eqn:E; [exact Hnd|].
  apply List.NoDup_app; [exact Hnd|repeat constructor; simpl; tauto|].
  intros y Hy [Hx|[]]. subst y. apply existsb_eqb_In in Hy. congruence.
Qed.

Lemma js_set_NoDup (l : list A) : List.NoDup (js_set eqb l).
Proof. apply set_fold_NoDup. constructor. Qed.

Lemma set_fold_In (l acc : list A) x :
  In x (fold_left (set_add eqb) l acc) <-> In x acc \/ In x l.
Proof.
  revert acc. induction l as [|y l IH]; intros acc; simpl; [tauto|].
  rewrite IH. unfold set_add. destruct (existsb (eqb y) acc) eqn:E.
  - apply existsb_eqb_In in E. split; [tauto|]. intros [H|[<-|H]]; auto.
  - rewrite List.in_app_iff. simpl. tauto.
Qed.

Lemma js_set_In_iff (l : list A) x : In x (js_set eqb l) <-> In x l.
Proof. unfold js_set. rewrite set_fold_In. simpl. tauto. Qed.
End SetFacts.

Lemma sort_insert_NoDup {A : Type} (cmp : A -> A -> Z) (x : A) (l : list A) :
  List.NoDup (x :: l) -> List.NoDup (sort_insert cmp x l).
Proof.
  induction l as [|y l IH]; simpl; intros H; [exact H|].
  destruct (cmp x y <=? 0); [exact H|].
  inversion H as [|? ? Hx Hyl]; subst. inversion Hyl as [|? ? Hy Hl]; subst.
  constructor.
  - rewrite sort_insert_In. intros [->|Hin]; [apply Hx; left; reflexivity|contradiction].
  - apply IH. constructor; [|exact Hl]. intros Hin. apply Hx. right. exact Hin.
Qed.

Lemma js_sort_NoDup {A : Type} (cmp : A -> A -> Z) (l : list A) :
  List.NoDup l -> List.NoDup (js_sort cmp l).
Proof.
  induction 1 as [|x l Hx Hl IH]; simpl; [constructor|].
  apply sort_insert_NoDup. constructor; [|exact IH]. rewrite js_sort_In. exact Hx.
Qed.

Lemma num_sort_insert_sorted (x : Z) (l : list Z) :
  StronglySorted Z.le l -> StronglySorted Z.le (sort_insert num_cmp x l).
Proof.
  induction 1 as [|y l Hs IH Hall]; simpl.
  - repeat constructor.
  - unfold num_cmp at 1. destruct (x - y <=? 0) eqn:E.
    + apply Z.leb_le in E. constructor; [constructor; assumption|].
      constructor; [lia|]. eapply List.Forall_impl; [|exact Hall]. intros; lia.
    + apply Z.leb_gt in E. constructor; [exact IH|].
      apply List.Forall_forall. intros z Hz. apply sort_insert_In in Hz.
      destruct Hz as [->|Hz]; [lia|]. rewrite List.Forall_forall in Hall. auto.
Qed.

Lemma num_sort_sorted (l : list Z) : StronglySorted Z.le (js_sort num_cmp l).
Proof.
  induction l as [|x l IH]; simpl; [constructor|]. apply num_sort_insert_sorted, IH.
Qed.

Lemma sorted_NoDup_strict (l : list Z) :
  StronglySorted Z.le l -> List.NoDup l -> StronglySorted Z.lt l.
Proof.
  induction 1 as [|x l Hs IH Hall]; intros Hnd; [constructor|].
  inversion Hnd as [|? ? Hx Hl]; subst. constructor; [auto|].
  apply List.Forall_forall. intros y Hy. rewrite List.Forall_forall in Hall.
  specialize (Hall y Hy). assert (x <> y) by (intros ->; contradiction). lia.
Qed.

Lemma Z_eqb_spec x y : Z.eqb x y = true <-> x = y.
Proof. apply Z.eqb_eq. Qed.

Lemma opt_str_eqb_spec a b : opt_str_eqb a b = true <-> a = b.
Proof.
  destruct a as [x|], b as [y|]; simpl; try (split; congruence).
  rewrite String.eqb_eq. split; congruence.
Qed.

(** ** The width policy *)

(** X1: whatever is asked for, [getValidWidths] returns its widths in
    strictly ascending order, so without duplicates. *)
Theorem X1_getValidWidths_strictly_ascending originalWidth widths allowUpscale
    minimumThreshold :
  StronglySorted Z.lt (getValidWidths originalWidth widths allowUpscale minimumThreshold).
Proof.
  unfold getValidWidths. apply sorted_NoDup_strict; [apply num_sort_sorted|].
  apply js_sort_NoDup, js_set_NoDup, Z_eqb_spec.
Qed.

Lemma clampWidths_bound originalWidth minimumThreshold last ws w :
  In w (clampWidths originalWidth minimumThreshold last ws) ->
  w = -1 \/ w <= originalWidth.
Proof.
  revert last. induction ws as [|x ws IH]; intros last; simpl; [tauto|].
  destruct (x >? originalWidth) eqn:E.
  - intros [<-|H]; [destruct last; [right; lia|left; reflexivity]|eauto].
  - rewrite Z.gtb_ltb in E. apply Z.ltb_ge in E. intros [<-|H]; [right; exact E|eauto].
Qed.

Lemma getValidWidths_clamped originalWidth widths minimumThreshold w :
  In w (getValidWidths originalWidth widths false minimumThreshold) ->
  0 < w <= originalWidth.
Proof.
  unfold getValidWidths. cbn [negb]. rewrite js_sort_In, (js_set_In_iff _ Z_eqb_spec).
  intros H. apply List.filter_In in H. destruct H as [H Hpos].
  rewrite Z.gtb_ltb in Hpos. apply Z.ltb_lt in Hpos.
  apply clampWidths_bound in H. lia.
Qed.

(** X2: when upscaling is not allowed, every width returned is positive
    and at most the original width. *)
Theorem X2_getValidWidths_never_upscales originalWidth widths minimumThreshold w :
  In w (getValidWidths originalWidth widths false minimumThreshold) ->
  0 < w <= originalWidth.
Proof.
  intros H. split; [|apply (getValidWidths_clamped _ _ _ _ H)].
  unfold getValidWidths in H. cbn [negb] in H.
  rewrite js_sort_In, (js_set_In_iff _ Z_eqb_spec) in H.
  apply List.filter_In in H. destruct H as [_ Hpos]. apply Z.gtb_lt in Hpos. exact Hpos.
Qed.


Lemma X2_getValidWidths_never_upscales_witness :
  In 400 (getValidWidths 500 [WNum 400; WNum 800] false (5 # 4)) /\ 0 < 400 <= 500.
Proof.
  assert (H : In 400 (getValidWidths 500 [WNum 400; WNum 800] false (5 # 4)))
    by (vm_compute; auto).
  split; [exact H|]. exact (X2_getValidWidths_never_upscales 500 _ (5 # 4) 400 H).
Defined.








(** ** The format policy *)

Lemma getFormatsArray_requested formats autoFormat svgShortCircuit :
  getFormatsArray formats autoFormat svgShortCircuit
  = let resolved := map (resolve_format autoFormat) (requested_formats formats) in
    js_set opt_str_eqb
      (if negb (is_str svgShortCircuit "size") then js_sort svg_first resolved else resolved).
Proof.
  unfold getFormatsArray. fold (requested_formats formats).
  destruct (requested_formats formats) as [|e l]; [|reflexivity].
  destruct (negb (is_str svgShortCircuit "size")); reflexivity.
Qed.

Lemma getFormatsArray_In formats autoFormat svgShortCircuit f :
  In f (getFormatsArray formats autoFormat svgShortCircuit) <->
  In f (map (resolve_format autoFormat) (requested_formats formats)).
Proof.
  rewrite getFormatsArray_requested. cbv zeta. rewrite (js_set_In_iff _ opt_str_eqb_spec).
  destruct (negb (is_str svgShortCircuit "size")); [apply js_sort_In|reflexivity].
Qed.

(** X6: [getFormatsArray] returns every format once, and the formats it
    returns are exactly the entries asked for, each with the native format
    in place of a falsy or "auto" entry (when there is a native format) and
    its alias resolved. *)
Theorem X6_getFormatsArray_distinct formats autoFormat svgShortCircuit :
  List.NoDup (getFormatsArray formats autoFormat svgShortCircuit) /\
  forall f, In f (getFormatsArray formats autoFormat svgShortCircuit) <->
            In f (map (resolve_format autoFormat) (requested_formats formats)).
Proof.
  split; [|intros f; apply getFormatsArray_In].
  rewrite getFormatsArray_requested. apply js_set_NoDup, opt_str_eqb_spec.
Qed.

Lemma resolve_format_no_alias autoFormat format :
  resolve_format autoFormat format <> Some "jpg" /\
  resolve_format autoFormat format <> Some "svg+xml".
Proof.
  unfold resolve_format.
  destruct (if str_truthy autoFormat
            then if negb (str_truthy format) || is_fmt format "auto" then autoFormat else format
            else format) as [f|]; [|split; discriminate].
  unfold FORMAT_ALIASES.
  destruct (String.eqb f "jpg") eqn:E1; [split; discriminate|].
  destruct (String.eqb f "svg+xml") eqn:E2; [split; discriminate|].
  apply String.eqb_neq in E1, E2. split; congruence.
Qed.

(** X7: no format returned by [getFormatsArray] is one of the alias
    spellings "jpg" and "svg+xml": they come back as "jpeg" and "svg". *)
Theorem X7_getFormatsArray_no_alias formats autoFormat svgShortCircuit f :
  In f (getFormatsArray formats autoFormat svgShortCircuit) ->
  f <> Some "jpg" /\ f <> Some "svg+xml".
Proof.
  intros Hin. apply getFormatsArray_In in Hin. apply List.in_map_iff in Hin. destruct Hin as (e & <- & _). apply resolve_format_no_alias.
Qed.

Lemma X7_getFormatsArray_no_alias_witness :
  In (Some "jpeg") (getFormatsArray (FormatsString "jpg,webp") (Some "jpeg") (VBool false)) /\
  Some "jpeg" <> Some "jpg" /\ Some "jpeg" <> Some "svg+xml".
Proof.
  assert (H : In (Some "jpeg")
                (getFormatsArray (FormatsString "jpg,webp") (Some "jpeg") (VBool false)))
    by (vm_compute; auto).
  split; [exact H|].
  exact (X7_getFormatsArray_no_alias (FormatsString "jpg,webp") (Some "jpeg") (VBool false)
           (Some "jpeg") H).
Defined.






Lemma resolve_format_resolved autoFormat format :
  str_truthy autoFormat = true -> is_fmt autoFormat "auto" = false ->
  unresolved (resolve_format autoFormat format) = false.
Proof.
  intros Ht Ha. unfold resolve_format. rewrite Ht.
  assert (H : forall f, unresolved f = false ->
              unresolved (match f with
                          | Some x => match FORMAT_ALIASES x with Some a => Some a | None => f end
                          | None => f
                          end) = false).
  { intros [x|] Hx; [|exact Hx]. unfold FORMAT_ALIASES.
    destruct (String.eqb x "jpg"); [reflexivity|].
    destruct (String.eqb x "svg+xml"); [reflexivity|exact Hx]. }
  apply H. destruct (negb (str_truthy format) || is_fmt format "auto") eqn:E.
  - unfold unresolved. rewrite Ht, Ha. reflexivity.
  - exact E.
Qed.

(** X9: when the native format is known (and is not itself "auto"),
    [getFormatsArray] returns no falsy and no "auto" entry: each has been
    replaced by the native format. *)
Theorem X9_getFormatsArray_auto_resolved formats autoFormat svgShortCircuit f :
  str_truthy autoFormat = true -> is_fmt autoFormat "auto" = false ->
  In f (getFormatsArray formats autoFormat svgShortCircuit) -> unresolved f = false.
Proof.
  intros Ht Ha Hin. apply getFormatsArray_In in Hin.
  apply List.in_map_iff in Hin. destruct Hin as (e & <- & _).
  apply resolve_format_resolved; assumption.
Qed.

Lemma X9_getFormatsArray_auto_resolved_witness :
  In (Some "png")
     (getFormatsArray (FormatsArray [None; Some "auto"; Some "jpg"]) (Some "png") (VBool false)) /\
  unresolved (Some "png") = false.
Proof.
  assert (H : In (Some "png")
                (getFormatsArray (FormatsArray [None; Some "auto"; Some "jpg"]) (Some "png")
                   (VBool false)))
    by (vm_compute; auto).
  split; [exact H|].
  exact (X9_getFormatsArray_auto_resolved (FormatsArray [None; Some "auto"; Some "jpg"])
           (Some "png") (VBool false) (Some "png") Logic.eq_refl Logic.eq_refl H).
Defined.

(** ** Sorted objects and the order of options *)


Section SortFacts.
Context {A : Type} (cmp : A -> A -> Z) (le : A -> A -> Prop).
Hypothesis cmp_le : forall a b, cmp a b <= 0 -> le a b.
Hypothesis cmp_gt : forall a b, 0 < cmp a b -> le b a.
Hypothesis le_trans : forall a b c, le a b -> le b c -> le a c.

Lemma sort_insert_ordered (x : A) (l : list A) :
  StronglySorted le l -> StronglySorted le (sort_insert cmp x l).
Proof.
  induction 1 as [|y l Hs IH Hall]; simpl.
  - repeat constructor.
  - destruct (cmp x y <=? 0) eqn:E.
    + apply Z.leb_le in E. constructor; [constructor; assumption|].
      constructor; [auto|]. eapply List.Forall_impl; [|exact Hall]. eauto.
    + apply Z.leb_gt in E. constructor; [exact IH|].
      apply List.Forall_forall. intros z Hz. apply sort_insert_In in Hz.
      destruct Hz as [->|Hz]; [auto|]. rewrite List.Forall_forall in Hall. auto.
Qed.

Lemma js_sort_ordered (l : list A) : StronglySorted le (js_sort cmp l).
Proof.
  induction l as [|x l IH]; simpl; [constructor|]. apply sort_insert_ordered, IH.
Qed.
End SortFacts.

Lemma sort_insert_Permutation {A : Type} (cmp : A -> A -> Z) (x : A) (l : list A) :
  Permutation (sort_insert cmp x l) (x :: l).
Proof.
  induction l as [|y l IH]; simpl; [reflexivity|].
  destruct (cmp x y <=? 0); [reflexivity|].
  rewrite IH. apply perm_swap.
Qed.

Lemma js_sort_Permutation {A : Type} (cmp : A -> A -> Z) (l : list A) :
  Permutation (js_sort cmp l) l.
Proof.
  induction l as [|x l IH]; simpl; [reflexivity|].
  rewrite sort_insert_Permutation, IH. reflexivity.
Qed.

Section StrictFacts.
Context {A : Type} (lt : A -> A -> Prop).
Hypothesis lt_irrefl : forall a, ~ lt a a.
Hypothesis lt_trans : forall a b c, lt a b -> lt b c -> lt a c.

Lemma strict_sorted_unique (l1 l2 : list A) :
  StronglySorted lt l1 -> StronglySorted lt l2 ->
  (forall x, In x l1 <-> In x l2) -> l1 = l2.
Proof.
  intros H1. revert l2. induction H1 as [|x1 l1 Hs1 IH Hall1]; intros l2 H2 Hin.
  - destruct l2 as [|x2 l2]; [reflexivity|]. destruct (proj2 (Hin x2)). left. reflexivity.
  - destruct H2 as [|x2 l2 Hs2 Hall2]; [destruct (proj1 (Hin x1)); left; reflexivity|].
    rewrite List.Forall_forall in Hall1, Hall2.
    assert (Hx : x1 = x2).
    { destruct (proj1 (Hin x1) (or_introl Logic.eq_refl)) as [E|Hx1]; [auto|].
      destruct (proj2 (Hin x2) (or_introl Logic.eq_refl)) as [E|Hx2]; [auto|].
      exfalso. apply (lt_irrefl x1). eauto. }
    subst x2. f_equal. apply IH; [exact Hs2|]. intros x. split; intros Hx.
    + destruct (proj1 (Hin x) (or_intror Hx)) as [<-|H]; [|exact H].
      exfalso. apply (lt_irrefl x1). auto.
    + destruct (proj2 (Hin x) (or_intror Hx)) as [<-|H]; [|exact H].
      exfalso. apply (lt_irrefl x1). auto.
Qed.
End StrictFacts.

Lemma str_lt_irrefl a : ~ str_lt a a.
Proof.
  unfold str_lt. intros H.
  assert (E : String.compare a a = Eq) by (apply OrderedTypeEx.String_as_OT.cmp_eq; reflexivity).
  congruence.
Qed.

Lemma str_lt_trans a b c : str_lt a b -> str_lt b c -> str_lt a c.
Proof.
  unfold str_lt. intros H1 H2.
  apply OrderedTypeEx.String_as_OT.cmp_lt in H1, H2.
  apply OrderedTypeEx.String_as_OT.cmp_lt.
  eapply OrderedTypeEx.String_as_OT.lt_trans; eassumption.
Qed.

Lemma str_sort_sorted (l : list string) : StronglySorted str_le (js_sort str_cmp l).
Proof.
  apply js_sort_ordered.
  - intros a b. unfold str_cmp, str_le, str_lt.
    destruct (String.compare a b) eqn:E; [|auto|lia].
    intros _. left. apply String.compare_eq_iff, E.
  - intros a b. unfold str_cmp, str_le, str_lt.
    destruct (String.compare a b) eqn:E; try lia.
    intros _. right. rewrite String.compare_antisym, E. reflexivity.
  - intros a b c [->|H1] [->|H2]; unfold str_le; eauto using str_lt_trans.
Qed.

Lemma str_sort_strict (l : list string) :
  List.NoDup l -> StronglySorted str_lt (js_sort str_cmp l).
Proof.
  intros Hnd. apply (js_sort_NoDup str_cmp) in Hnd.
  pose proof (str_sort_sorted l) as Hs.
  induction Hs as [|x r Hs IH Hall]; [constructor|].
  inversion Hnd as [|? ? Hx Hr]; subst. constructor; [auto|].
  apply List.Forall_forall. intros y Hy. rewrite List.Forall_forall in Hall.
  destruct (Hall y Hy) as [->|H]; [contradiction|exact H].
Qed.


Lemma In_obj_get {V : Type} k (v : V) o :
  List.NoDup (obj_keys o) -> In (k, v) o -> obj_get k o = Some v.
Proof.
  induction o as [|[k' v'] o IH]; simpl; [tauto|].
  intros Hnd. inversion Hnd as [|? ? Hk Hnd']; subst. intros [[= -> ->]|Hin].
  - rewrite String.eqb_refl. reflexivity.
  - destruct (String.eqb k' k) eqn:E; [|auto].
    apply String.eqb_eq in E. subst k'. exfalso. apply Hk.
    change k with (fst (k, v)). apply List.in_map, Hin.
Qed.

Lemma obj_get_key {V : Type} k (o : list (string * V)) :
  In k (obj_keys o) <-> obj_get k o <> None.
Proof.
  split.
  - intros Hin H. apply obj_get_None in H. contradiction.
  - induction o as [|[k' v'] o IH]; simpl; [congruence|].
    destruct (String.eqb k' k) eqn:E; [|auto].
    apply String.eqb_eq in E. auto.
Qed.







Lemma getSortedObject_same (o1 o2 : obj) :
  List.NoDup (obj_keys o1) -> List.NoDup (obj_keys o2) -> same_bindings o1 o2 ->
  getSortedObject o1 = getSortedObject o2.
Proof.
  intros H1 H2 Hsame. unfold getSortedObject.
  assert (Hkeys : js_sort str_cmp (obj_keys o1) = js_sort str_cmp (obj_keys o2)).
  { apply (strict_sorted_unique str_lt str_lt_irrefl str_lt_trans);
      [apply str_sort_strict, H1|apply str_sort_strict, H2|].
    intros k. rewrite !js_sort_In, !obj_get_key, (Hsame k). reflexivity. }
  rewrite Hkeys. generalize (js_sort str_cmp (obj_keys o2)) as keys.
  assert (Hp : forall k, prop k o1 = prop k o2)
    by (intros k; unfold prop; rewrite (Hsame k); reflexivity).
  generalize (@nil (string * jsval)) as acc.
  intros acc keys. revert acc.
  induction keys as [|key keys IH]; intros acc; cbn [fold_left]; [reflexivity|].
  rewrite (Hp key). apply IH.
Qed.

Lemma Permutation_same_bindings (o1 o2 : obj) :
  List.NoDup (obj_keys o1) -> Permutation o1 o2 ->
  List.NoDup (obj_keys o2) /\ same_bindings o1 o2.
Proof.
  intros Hnd Hp.
  assert (Hnd2 : List.NoDup (obj_keys o2)).
  { eapply Permutation_NoDup; [|exact Hnd]. apply Permutation_map, Hp. }
  split; [exact Hnd2|]. intros k. destruct (obj_get k o1) as [v|] eqn:G.
  - symmetry. apply In_obj_get; [exact Hnd2|]. eapply Permutation_in; [exact Hp|].
    apply obj_get_In, G.
  - destruct (obj_get k o2) as [v|] eqn:G2; [|reflexivity].
    apply obj_get_In in G2. apply (Permutation_in _ (Permutation_sym Hp)) in G2.
    apply (In_obj_get _ _ _ Hnd) in G2. congruence.
Qed.

(** X11: [Util.getSortedObject] does not depend on the order in which the
    properties of its argument were added. *)
Theorem X11_getSortedObject_any_order (o1 o2 : obj) :
  List.NoDup (obj_keys o1) -> Permutation o1 o2 ->
  getSortedObject o1 = getSortedObject o2.
Proof.
  intros Hnd Hp. destruct (Permutation_same_bindings o1 o2 Hnd Hp) as [Hnd2 Hsame].
  apply getSortedObject_same; assumption.
Qed.

Lemma X11_getSortedObject_any_order_witness :
  getSortedObject [("quality", num 80); ("effort", num 4)]
  = getSortedObject [("effort", num 4); ("quality", num 80)].
Proof.
  apply X11_getSortedObject_any_order; [|apply perm_swap].
  repeat constructor; simpl; intuition discriminate.
Defined.


Section OrderFacts.
Variable B : Builtins.
Variable w : World.





End OrderFacts.


(** ** The shape of the hash *)

Lemma list_ascii_app (a b : string) :
  list_ascii_of_string (a +:+ b) = list_ascii_of_string a ++ list_ascii_of_string b.
Proof. induction a as [|c a IH]; simpl; [reflexivity|]. rewrite IH. reflexivity. Qed.

Lemma url_safe_In c s :
  In c (list_ascii_of_string (url_safe s)) ->
  c <> "="%char /\ c <> "+"%char /\ c <> "/"%char.
Proof.
  unfold url_safe. induction s as [|a s IH]; cbn [map_chars list_ascii_of_string]; [intros []|].
  rewrite list_ascii_app, List.in_app_iff. intros [H|H]; [|exact (IH H)].
  destruct (Ascii.eqb a "=") eqn:E1; [destruct H|].
  destruct (Ascii.eqb a "+") eqn:E2.
  { destruct H as [<-|[]]. repeat split; discriminate. }
  destruct (Ascii.eqb a "/") eqn:E3.
  { destruct H as [<-|[]]. repeat split; discriminate. }
  destruct H as [<-|[]]. apply Ascii.eqb_neq in E1, E2, E3. auto.
Qed.

Lemma substring_In c n m s :
  In c (list_ascii_of_string (String.substring n m s)) -> In c (list_ascii_of_string s).
Proof.
  revert n m. induction s as [|a s IH]; intros n m; destruct n, m; simpl; try tauto.
  - intros [->|H]; [auto|]. right. exact (IH _ _ H).
  - intros H. right. exact (IH _ _ H).
  - intros H. right. exact (IH _ _ H).
Qed.

Lemma substring_length_le m s : (String.length (String.substring 0 m s) <= m)%nat.
Proof.
  revert s. induction m as [|m IH]; intros s; destruct s as [|a s]; simpl; try lia.
  specialize (IH s). lia.
Qed.

Section HashShape.
Variable B : Builtins.
Variable w : World.

Lemma getHash_shape s h s' :
  computedHash (self s) = None -> getHash B w s = (Ok h, s') ->
  exists data,
    truncate_hash (prop "hashLength" (options (self s)))
                  (url_safe (createHash_sha256_base64 B data)) = Ok h.
Proof.
  intros Hc Hrun. destruct s as [img l]. cbn [self] in *.
  pose proof (getHash_fresh B w img l Hc) as Hf. rewrite Hrun in Hf. cbn [fst] in Hf.
  destruct (hash_data w img) as [data|e]; [|discriminate]. eauto.
Qed.

(** X13: a hash computed by [getHash] is safe in a URL and a file name (it
    holds none of the characters =, + and / of base64), and it is no longer
    than the hashLength option. *)
Theorem X13_getHash_url_safe_and_short s h s' :
  computedHash (self s) = None -> getHash B w s = (Ok h, s') ->
  (forall c, In c (list_ascii_of_string h) ->
             c <> "="%char /\ c <> "+"%char /\ c <> "/"%char) /\
  (forall q, prop "hashLength" (options (self s)) = VNum q ->
             (String.length h <= Z.to_nat (trunc q))%nat).
Proof.
  intros Hc Hrun. destruct (getHash_shape s h s' Hc Hrun) as (data & Ht).
  unfold truncate_hash in Ht. split.
  - intros c Hin. destruct (prop "hashLength" (options (self s))); try discriminate;
      injection Ht as <-; [|apply substring_In in Hin]; eapply url_safe_In, Hin.
  - intros q Hq. rewrite Hq in Ht. injection Ht as <-. apply substring_length_le.
Qed.

(** X14: the hash of an SVG file does not depend on its line breaks. Two
    local sources whose contents look like SVG and are equal once carriage
    returns and line feeds are removed get the same hash under the same
    options. *)
Theorem X14_svg_hash_ignores_line_breaks s1 s2 opts img1 img2 c1 c2 :
  new_Image B s1 opts = Ok img1 -> new_Image B s2 opts = Ok img2 ->
  local_bytes B w s1 = Some c1 -> local_bytes B w s2 = Some c2 ->
  looks_like_svg c1 = true -> looks_like_svg c2 = true ->
  strip_newlines c1 = strip_newlines c2 ->
  fst (on img1 (getHash B w)) = fst (on img2 (getHash B w)).
Proof.
  intros N1 N2 L1 L2 S1 S2 Hstrip. apply new_Image_Ok in N1, N2.
  unfold on. cbn [fst snd]. rewrite !getHash_fresh by (subst; reflexivity).
  rewrite (hash_data_local B w img1 c1), (hash_data_local B w img2 c2) by (subst; auto).
  unfold looks_like_svg in S1, S2. cbv zeta in S1, S2. rewrite S1, S2, Hstrip.
  subst. reflexivity.
Qed.
End HashShape.

Lemma X13_getHash_url_safe_and_short_witness :
  (forall c, In c (list_ascii_of_string "<svg ><_sv") ->
             c <> "="%char /\ c <> "+"%char /\ c <> "/"%char) /\
  (forall q, prop "hashLength" (options (self (mkState sample_image []))) = VNum q ->
             (String.length "<svg ><_sv" <= Z.to_nat (trunc q))%nat).
Proof.
  apply (X13_getHash_url_safe_and_short sample_builtins (sample_world false)
           (mkState sample_image []) "<svg ><_sv"
           (snd (getHash sample_builtins (sample_world false) (mkState sample_image []))));
    reflexivity.
Defined.

Lemma X14_svg_hash_ignores_line_breaks_witness :
  fst (on (image_of (SrcString "unix.svg") None)
          (getHash sample_builtins sample_line_break_world))
  = fst (on (image_of (SrcString "dos.svg") None)
            (getHash sample_builtins sample_line_break_world)).
Proof.
  apply (X14_svg_hash_ignores_line_breaks sample_builtins sample_line_break_world
           (SrcString "unix.svg") (SrcString "dos.svg") None _ _
           ("<svg >" +:+ line_feed +:+ "</svg>")
           ("<svg >" +:+ carriage_return +:+ line_feed +:+ "</svg>"));
    reflexivity.
Defined.

(** ** What a plan holds *)

Section OptionsFacts.
Variable B : Builtins.
Variable w : World.
Variable o : obj.

Lemma same_getFileContents : keeps (has_options o) any_event (getFileContents w).
Proof. unfold getFileContents. repeat keeps_step. Qed.
Hint Resolve same_getFileContents : keeps.

Lemma same_computeHash : keeps (has_options o) any_event (computeHash B w).
Proof. unfold computeHash. repeat keeps_step. Qed.
Hint Resolve same_computeHash : keeps.

Lemma same_getHash : keeps (has_options o) any_event (getHash B w).
Proof. unfold getHash. repeat keeps_step. Qed.
Hint Resolve same_getHash : keeps.

Lemma same_getStat fmt width height :
  keeps (has_options o) any_event (getStat B w fmt width height).
Proof. unfold getStat. repeat keeps_step. Qed.

Lemma getStat_options fmt width height s r s' :
  getStat B w fmt width height s = (r, s') -> options (self s) = o -> options (self s') = o.
Proof.
  intros H Ho. destruct (same_getStat fmt width height s Ho) as [Hi _].
  rewrite H in Hi. exact Hi.
Qed.
End OptionsFacts.

Section PlannedFacts.
Variable B : Builtins.
Variable w : World.

Lemma getStat_dims fmt width0 height0 s st s' :
  getStat B w fmt width0 height0 s = (Ok st, s') ->
  format st = fmt /\ width st = width0 /\ height st = height0.
Proof.
  unfold getStat, bind, this, ret, throw, lift. cbn [self].
  repeat match goal with
         | |- context [match ?x with _ => _ end] =>
             match type of x with
             | result _ => destruct x
             | (_ * _)%type => destruct x
             | bool => destruct x
             | option _ => destruct x
             | jsval => destruct x
             end
         end; try discriminate; intros [= <- _]; auto.
Qed.

Lemma mapM_getStat fmt (height_of : Z -> Z) widths s stats s' :
  mapM (fun width0 => getStat B w fmt width0 (height_of width0)) widths s = (Ok stats, s') ->
  options (self s') = options (self s) /\
  forall st, In st stats ->
    format st = fmt /\ In (width st) widths /\ height st = height_of (width st).
Proof.
  revert s stats. induction widths as [|x widths IH]; intros s stats; cbn [mapM].
  - unfold ret. intros [= <- <-]. split; [reflexivity|]. intros st [].
  - unfold bind at 1. destruct (getStat B w fmt x (height_of x) s) as [[y|e] s1] eqn:G;
      [|discriminate].
    unfold bind at 1. destruct (mapM _ widths s1) as [[ys|e] s2] eqn:Hm; [|discriminate].
    unfold ret. intros [= <- <-]. destruct (IH _ _ Hm) as [Ho Hall].
    split.
    + rewrite Ho. eapply getStat_options; [exact G|reflexivity].
    + apply getStat_dims in G. destruct G as (Hf & Hw & Hh).
      intros st [<-|Hin].
      * rewrite Hw. cbn [In]. auto.
      * destruct (Hall st Hin) as (? & ? & ?). cbn [In]. auto.
Qed.

Lemma with_metadata_size_dims metadata st :
  format (with_metadata_size metadata st) = format st /\
  width (with_metadata_size metadata st) = width st /\
  height (with_metadata_size metadata st) = height st.
Proof.
  unfold with_metadata_size. destruct (m_size metadata) as [n|]; [|auto].
  destruct (n =? 0); auto.
Qed.

Lemma loop_planned metadata outputFormats :
  forall results s rs s',
    fullStats_loop B w metadata outputFormats results s = (Ok rs, s') ->
    List.Forall (planned (options (self s)) metadata) results ->
    List.Forall (planned (options (self s)) metadata) rs.
Proof.
  induction outputFormats as [|outputFormat rest IH]; intros results s rs s';
    cbn [fullStats_loop].
  - unfold ret. intros [= <- _] H. exact H.
  - destruct (negb (str_truthy outputFormat) || is_fmt outputFormat "auto"); [discriminate|].
    destruct outputFormat as [fmt|]; [|discriminate].
    unfold bind at 1. unfold this at 1. cbn [self].
    destruct (String.eqb fmt "svg") eqn:Esvg.
    + destruct (is_fmt (nativeFormat metadata (options (self s))) "svg") eqn:Enat;
        [|apply IH].
      unfold bind at 1.
      destruct (getStat B w "svg" (m_width metadata) (m_height metadata) s)
        as [[st|e] s1] eqn:G; [|discriminate].
      pose proof (getStat_options B w _ _ _ _ _ _ _ G Logic.eq_refl) as Ho.
      apply getStat_dims in G. destruct G as (Hf & Hw & Hh).
      destruct (with_metadata_size_dims metadata st) as (Hf' & Hw' & Hh').
      assert (Hnew : forall results,
                 List.Forall (planned (options (self s)) metadata) results ->
                 List.Forall (planned (options (self s)) metadata)
                   (results ++ [with_metadata_size metadata st])).
      { intros rs0 H. apply List.Forall_app. split; [exact H|]. constructor; [|constructor].
        unfold planned. rewrite Hf', Hf. cbn. rewrite Hw', Hh', Hw, Hh. auto. }
      destruct (is_true (prop "svgShortCircuit" (options (self s)))).
      * unfold ret. intros [= <- _] H. apply Hnew, H.
      * intros Hrun H. rewrite <- Ho. eapply IH; [exact Hrun|]. rewrite Ho. apply Hnew, H.
    + unfold bind at 1. unfold lift at 1.
      destruct (decoded (widths_of (prop "widths" (options (self s))))) as [requested|e] eqn:Dw;
        [|discriminate].
      unfold bind at 1. unfold lift at 1.
      destruct (minimumThreshold_of (prop "minimumThreshold" (options (self s))))
        as [threshold|e] eqn:Dt; [|discriminate].
      cbv zeta. unfold bind at 1.
      destruct (mapM _ _ s) as [[stats|e] s1] eqn:Hm; [|discriminate].
      apply (mapM_getStat fmt (fun width0 => width0 * m_height metadata / m_width metadata))
        in Hm.
      destruct Hm as [Ho Hall].
      intros Hrun H. rewrite <- Ho. eapply IH; [exact Hrun|]. rewrite Ho.
      apply List.Forall_app. split; [exact H|]. apply List.Forall_forall. intros st Hin.
      destruct (Hall st Hin) as (Hf & Hw & Hh). unfold planned. rewrite Hf, Esvg.
      exists requested, threshold. unfold decoded in Dw.
      destruct (widths_of (prop "widths" (options (self s)))) as [r|]; [|discriminate].
      injection Dw as ->. auto.
Qed.
End PlannedFacts.

Lemma sorted_group_In t e files : In e (sorted_group t files) -> In e files.
Proof.
  unfold sorted_group, of_format. rewrite js_sort_In. intros H.
  apply List.filter_In in H. tauto.
Qed.

(** Every entry of a group of the plan is one of the files. *)
Lemma transform_In svgShortCircuit files formats t g st :
  In (t, g) (_transformRawFiles svgShortCircuit files formats) -> In st g -> In st files.
Proof.
  intros Hg Hin. apply transform_groups in Hg. subst g.
  destruct (svg_filter svgShortCircuit files) as [[svg0 svgSize]|] eqn:F;
    [|eapply sorted_group_In, Hin].
  destruct (String.eqb t "svg"); [eapply sorted_group_In, Hin|].
  rewrite filterGroup_substitute in Hin. apply substitute_svg_In in Hin.
  destruct Hin as [[-> _]|[Hin _]]; [|eapply sorted_group_In, Hin].
  apply svg_filter_Some in F. destruct F as (_ & Hhd & _).
  apply (sorted_group_In "svg"). destruct (sorted_group "svg" files); [discriminate|].
  injection Hhd as ->. left. reflexivity.
Qed.

Lemma oriented_nativeFormat metadata o :
  nativeFormat (oriented metadata) o = nativeFormat metadata o.
Proof. unfold nativeFormat. rewrite oriented_format. reflexivity. Qed.

Section FullStatsFacts.
Variable B : Builtins.
Variable w : World.

Lemma getFullStats_planned metadata s p s' t g st :
  getFullStats B w metadata s = (Ok p, s') -> In (t, g) p -> In st g ->
  planned (options (self s)) (oriented metadata) st.
Proof.
  unfold getFullStats. unfold bind at 1. unfold this at 1. cbn [self].
  unfold bind at 1. unfold lift at 1.
  destruct (decoded (formats_of (prop "formats" (options (self s))))) as [formats|e];
    [|discriminate].
  unfold bind at 1.
  destruct (fullStats_loop B w (oriented metadata) _ [] s) as [[results|e] s1] eqn:L;
    [|discriminate].
  unfold ret. intros [= <- _] Hg Hin.
  apply loop_planned in L; [|constructor].
  rewrite List.Forall_forall in L. apply L. eapply transform_In; eassumption.
Qed.

(** X15: a plan of [getFullStats] holds an SVG entry only for a source
    whose native format is SVG, and then at the native dimensions. *)
Theorem X15_svg_output_only_for_svg_source metadata s p s' t g st :
  getFullStats B w metadata s = (Ok p, s') -> In (t, g) p -> In st g ->
  format st = "svg" ->
  is_fmt (nativeFormat metadata (options (self s))) "svg" = true /\
  width st = m_width (oriented metadata) /\ height st = m_height (oriented metadata).
Proof.
  intros Hrun Hg Hin Hf. pose proof (getFullStats_planned _ _ _ _ _ _ _ Hrun Hg Hin) as H.
  unfold planned in H. rewrite Hf in H. cbn in H. rewrite oriented_nativeFormat in H. exact H.
Qed.

(** X16: a raster entry of a plan of [getFullStats] has the height that
    keeps the aspect ratio of the source, rounded down (for a source of a
    width other than zero); and unless the source is an SVG with
    svgAllowUpscale, it is not wider than the source. *)
Theorem X16_raster_output_dimensions metadata s p s' t g st :
  getFullStats B w metadata s = (Ok p, s') -> In (t, g) p -> In st g ->
  format st <> "svg" ->
  (m_width (oriented metadata) <> 0 ->
   height st = width st * m_height (oriented metadata) / m_width (oriented metadata)) /\
  (is_fmt (m_format metadata) "svg" && truthy (prop "svgAllowUpscale" (options (self s)))
   = false ->
   0 < width st <= m_width (oriented metadata)).
Proof.
  intros Hrun Hg Hin Hf. pose proof (getFullStats_planned _ _ _ _ _ _ _ Hrun Hg Hin) as H.
  unfold planned in H. apply String.eqb_neq in Hf. rewrite Hf in H.
  destruct H as (requested & threshold & _ & _ & Hw & Hh). split; [intros _; exact Hh|].
  intros Hup. rewrite oriented_format, Hup in Hw.
  eapply getValidWidths_clamped, Hw.
Qed.
End FullStatsFacts.

Lemma resolve_format_unresolved autoFormat format :
  str_truthy autoFormat = false -> unresolved format = true ->
  unresolved (resolve_format autoFormat format) = true.
Proof.
  intros Ha Hu. unfold resolve_format. rewrite Ha.
  destruct format as [f|]; [|exact Hu]. unfold FORMAT_ALIASES.
  destruct (String.eqb f "jpg") eqn:E1.
  { apply String.eqb_eq in E1. subst f. discriminate. }
  destruct (String.eqb f "svg+xml") eqn:E2.
  { apply String.eqb_eq in E2. subst f. discriminate. }
  exact Hu.
Qed.

Section AutoFormatFacts.
Variable B : Builtins.
Variable w : World.

Lemma loop_unresolved metadata outputFormats f :
  In f outputFormats -> unresolved f = true ->
  forall results s rs s',
    is_fmt (nativeFormat metadata (options (self s))) "svg" = false ->
    fullStats_loop B w metadata outputFormats results s <> (Ok rs, s').
Proof.
  intros Hin Hu.
  induction outputFormats as [|outputFormat rest IH]; [destruct Hin|].
  intros results s rs s' Hnat. cbn [fullStats_loop].
  destruct (negb (str_truthy outputFormat) || is_fmt outputFormat "auto") eqn:E;
    [discriminate|].
  destruct Hin as [->|Hin]; [unfold unresolved in Hu; congruence|].
  specialize (IH Hin).
  destruct outputFormat as [fmt|]; [|discriminate].
  unfold bind at 1. unfold this at 1. cbn [self].
  destruct (String.eqb fmt "svg").
  - rewrite Hnat. apply IH, Hnat.
  - unfold bind at 1. unfold lift at 1.
    destruct (decoded (widths_of (prop "widths" (options (self s))))) as [requested|e];
      [|discriminate].
    unfold bind at 1. unfold lift at 1.
    destruct (minimumThreshold_of (prop "minimumThreshold" (options (self s))))
      as [threshold|e]; [|discriminate].
    cbv zeta. unfold bind at 1.
    destruct (mapM _ _ s) as [[stats|e] s1] eqn:Hm; [|discriminate].
    apply (mapM_getStat B w fmt (fun width0 => width0 * m_height metadata / m_width metadata))
      in Hm.
    destruct Hm as [Ho _]. apply IH. rewrite Ho. exact Hnat.
Qed.

(** X17: when the native format of the source is not known and the formats
    asked for hold a falsy or "auto" entry, [getFullStats] returns no plan:
    it throws. *)
Theorem X17_getFullStats_needs_native_format metadata s formats :
  formats_of (prop "formats" (options (self s))) = Some formats ->
  existsb unresolved (requested_formats formats) = true ->
  str_truthy (nativeFormat metadata (options (self s))) = false ->
  exists e, fst (getFullStats B w metadata s) = Throw e.
Proof.
  intros Hf Hex Hnat. apply List.existsb_exists in Hex. destruct Hex as (f & Hin & Hu).
  unfold getFullStats. unfold bind at 1. unfold this at 1. cbn [self].
  unfold bind at 1. unfold lift at 1. rewrite Hf. cbn [decoded].
  unfold bind at 1.
  destruct (fullStats_loop B w (oriented metadata) _ [] s) as [[results|e] s1] eqn:L;
    [|exists e; reflexivity].
  exfalso. revert L.
  apply (loop_unresolved (oriented metadata) _ (resolve_format (nativeFormat metadata
                                                                  (options (self s))) f)).
  - apply getFormatsArray_In. apply List.in_map, Hin.
  - apply resolve_format_unresolved; assumption.
  - rewrite oriented_nativeFormat.
    destruct (nativeFormat metadata (options (self s))) as [n|]; [|reflexivity].
    cbn in Hnat |- *. destruct (String.eqb n "svg") eqn:E; [|reflexivity].
    apply String.eqb_eq in E. subst n. discriminate.
Qed.

(** X18: [statsSync] and [statsByDimensionsSync] make no outside call
    but look-ups on the file system and, for [statsSync], the dimension
    probe: no fetch, no codec call, no hook, nothing written. *)
Theorem X18_sync_stats_only_probe src0 width0 height0 opts :
  forallb is_probe (snd (statsSync B w src0 opts)) = true /\
  forallb is_fs_probe (snd (statsByDimensionsSync B w src0 width0 height0 opts)) = true.
Proof.
  split.
  - unfold statsSync. destruct (is_remote B src0); [reflexivity|].
    destruct (getImageSize w src0) as [[[width1 height1] type]|e]; [|reflexivity].
    destruct (new_Image B src0 opts) as [img|e]; [|reflexivity].
    cbn [snd forallb is_probe andb].
    apply only_on, (only_weaken is_fs_probe); [apply is_fs_probe_is_probe|].
    apply only_getFullStats.
  - unfold statsByDimensionsSync. destruct (new_Image B src0 opts) as [img|e]; [|reflexivity].
    apply only_on, only_getFullStats.
Qed.
End AutoFormatFacts.

Lemma X16_raster_output_dimensions_witness :
  exists p s' g st,
    getFullStats sample_builtins (sample_world false) sample_photo_metadata sample_photo_request
    = (Ok p, s') /\
    In ("webp", g) p /\ In st g /\ format st <> "svg" /\ width st = 1000 /\
    (1000 <> 0 -> height st = width st * 500 / 1000) /\
    (is_fmt (Some "jpeg") "svg"
     && truthy (prop "svgAllowUpscale" (options (self sample_photo_request))) = false ->
     0 < width st <= 1000).
Proof.
  do 4 eexists.
  match goal with
  | |- ?A /\ ?B /\ ?C /\ ?D /\ _ =>
      assert (Ha : A) by (vm_compute; reflexivity);
      assert (Hb : B) by (right; left; reflexivity);
      assert (Hc : C) by (right; left; reflexivity);
      assert (Hd : D) by discriminate
  end.
  repeat (split; [assumption|]). split; [reflexivity|].
  exact (X16_raster_output_dimensions sample_builtins (sample_world false) _ _ _ _ _ _ _
           Ha Hb Hc Hd).
Defined.

Lemma X15_svg_output_only_for_svg_source_witness :
  exists p s' g st,
    getFullStats sample_builtins (sample_world false) sample_metadata sample_svg_request
    = (Ok p, s') /\
    In ("svg", g) p /\ In st g /\ format st = "svg" /\
    is_fmt (nativeFormat sample_metadata (options (self sample_svg_request))) "svg" = true /\
    width st = 100 /\ height st = 100.
Proof.
  do 4 eexists.
  match goal with
  | |- ?A /\ ?B /\ ?C /\ ?D /\ _ =>
      assert (Ha : A) by (vm_compute; reflexivity);
      assert (Hb : B) by (left; reflexivity);
      assert (Hc : C) by (left; reflexivity);
      assert (Hd : D) by reflexivity
  end.
  repeat (split; [assumption|]).
  exact (X15_svg_output_only_for_svg_source sample_builtins (sample_world false) _ _ _ _ _ _ _
           Ha Hb Hc Hd).
Defined.

Lemma X17_getFullStats_needs_native_format_witness :
  exists e,
    fst (getFullStats sample_builtins (sample_world false)
           (mkMetadata 1000 500 None None None None) sample_auto_request) = Throw e.
Proof.
  apply (X17_getFullStats_needs_native_format sample_builtins (sample_world false)
           (mkMetadata 1000 500 None None None None) sample_auto_request
           (FormatsArray [Some "auto"]));
    reflexivity.
Defined.

(** ** Materialisation *)

Section Yields.
Context {A : Type} (Q : A -> Prop).

Lemma yields_ret (a : A) : Q a -> yields Q (ret a).
Proof. intros H s a' s' [= <- _]. exact H. Qed.

Lemma yields_throw (e : error) : yields Q (throw e).
Proof. intros s a s' H. discriminate. Qed.

Lemma yields_bind {C : Type} (m : M C) (k : C -> M A) :
  (forall c, yields Q (k c)) -> yields Q (bind m k).
Proof.
  intros Hk s a s'. unfold bind. destruct (m s) as [[c|e] s1]; [apply Hk|discriminate].
Qed.
End Yields.

Ltac yields_step :=
  match goal with
  | |- yields _ (bind _ _) => apply yields_bind; intros ?
  | |- yields _ (ret _) => apply yields_ret
  | |- yields _ (throw _) => apply yields_throw
  | |- yields _ (match ?x with _ => _ end) => destruct x eqn:?
  | |- yields _ (let _ := _ in _) => cbv zeta
  end.

Lemma same_artifact_refl st : same_artifact st st.
Proof. unfold same_artifact. tauto. Qed.

Lemma same_artifact_size st n : same_artifact st (with_size st n).
Proof. unfold same_artifact. cbn. tauto. Qed.

Lemma same_artifact_buffer st b : same_artifact st (with_buffer st b).
Proof. unfold same_artifact. cbn. tauto. Qed.

Lemma same_artifact_trans a b c : same_artifact a b -> same_artifact b c -> same_artifact a c.
Proof. unfold same_artifact. intuition congruence. Qed.

Section MaterializeFacts.
Variable B : Builtins.
Variable w : World.

Lemma keeps_bind_val (I : Image -> Prop) (P : event -> bool) {A C : Type}
    (m : M A) (k : A -> M C) :
  keeps I P m ->
  (forall a, (exists s, I (self s) /\ fst (m s) = Ok a) -> keeps I P (k a)) ->
  keeps I P (bind m k).
Proof.
  intros Hm Hk s H. unfold bind. destruct (Hm s H) as (Hi & evs & Hl & Hp).
  destruct (m s) as [[a|e] s1] eqn:E; simpl in *.
  - assert (Ha : exists s0, I (self s0) /\ fst (m s0) = Ok a).
    { exists s. rewrite E. auto. }
    destruct (Hk a Ha s1 Hi) as (Hi' & evs' & Hl' & Hp'). split; [exact Hi'|].
    exists (evs ++ evs').
    rewrite Hl', Hl, List.app_assoc, List.forallb_app, Hp, Hp'. auto.
  - split; [exact Hi|]. exists evs. auto.
Qed.

Lemma caching_getFileContents : keeps caching is_lookup (getFileContents w).
Proof. unfold getFileContents. repeat keeps_step. Qed.

Lemma materialize_cached input sharpOptions metadata outputFormat stat p :
  outputPath stat = Some p -> fs_existsSync w p = true ->
  keeps caching is_lookup (materialize B w input sharpOptions metadata outputFormat stat).
Proof.
  intros Hp He. unfold materialize. apply keeps_this_bind. intros img Hi. cbv zeta.
  rewrite (Hi : truthy (prop "useCache" (options img)) = true), Hp.
  apply keeps_bind_val; [repeat keeps_step|].
  intros cached (s0 & _ & Hrun). unfold bind, emit, ret in Hrun. cbn in Hrun.
  rewrite He in Hrun. injection Hrun as <-.
  pose proof caching_getFileContents.
  repeat keeps_step.
Qed.

(** X20: with useCache set, a stat whose output file exists already is not
    encoded again: the loop of [resize] makes for it only look-ups on the
    file system and the size estimate, no codec call, no hook call, and
    writes nothing. *)
Theorem X20_existing_output_not_encoded input sharpOptions metadata outputFormat stat p s :
  truthy (prop "useCache" (options (self s))) = true ->
  outputPath stat = Some p -> fs_existsSync w p = true ->
  exists evs,
    log (snd (materialize B w input sharpOptions metadata outputFormat stat s))
    = log s ++ evs /\
    forallb is_lookup evs = true.
Proof.
  intros Hu Hp He.
  destruct (materialize_cached input sharpOptions metadata outputFormat stat p Hp He s Hu)
    as [_ H].
  exact H.
Qed.
End MaterializeFacts.

Lemma Promise_all_In {A : Type} (ps : list (result A)) l a :
  Promise_all ps = Ok l -> In a l -> In (Ok a) ps.
Proof.
  revert l. induction ps as [|[x|e] ps IH]; intros l; simpl.
  - intros [= <-] [].
  - destruct (Promise_all ps) as [l'|e]; [|discriminate]. intros [= <-] [->|Hin]; eauto.
  - discriminate.
Qed.

Lemma plan_jobs_In (full : plan) t st :
  In (t, st) (plan_jobs full) <-> exists g, In (t, g) full /\ In st g.
Proof.
  unfold plan_jobs. rewrite List.in_flat_map. split.
  - intros ([t0 g] & Hg & Hin). cbn [fst snd] in Hin. apply List.in_map_iff in Hin.
    destruct Hin as (st0 & [= <- <-] & Hst). eauto.
  - intros (g & Hg & Hst). exists (t, g). split; [exact Hg|].
    cbn [fst snd]. apply List.in_map, Hst.
Qed.

Lemma planned_same_artifact o metadata a b :
  same_artifact a b -> planned o metadata a -> planned o metadata b.
Proof.
  unfold same_artifact, planned. intros (Hf & Hw & Hh & _). rewrite Hf, Hw, Hh. auto.
Qed.

Section ResizeFacts.
Variable B : Builtins.
Variable w : World.

Lemma materialize_same input sharpOptions metadata outputFormat stat s st s' :
  materialize B w input sharpOptions metadata outputFormat stat s = (Ok (Some (Ok st)), s') ->
  same_artifact stat st.
Proof.
  assert (H : yields (settled_as (same_artifact stat))
                (materialize B w input sharpOptions metadata outputFormat stat)).
  { unfold materialize. repeat yields_step; cbn [settled_as]; try exact Logic.I;
      try destruct (truthy (prop "dryRun" (options _)));
      eauto using same_artifact_refl, same_artifact_size, same_artifact_buffer,
        same_artifact_trans. }
  intros Hrun. exact (H _ _ _ Hrun).
Qed.

Lemma same_materialize o input sharpOptions metadata outputFormat stat :
  keeps (has_options o) any_event (materialize B w input sharpOptions metadata outputFormat stat).
Proof.
  pose proof (same_getFileContents w o). unfold materialize. repeat keeps_step.
Qed.

(** X19: materialising a stat changes nothing but its size and its
    buffer: format, width, height, url, sourceType, srcset, filename and
    outputPath of the stat that the loop of [resize] hands on are those of
    the stat that was planned. *)
Theorem X19_materialize_keeps_artifact input sharpOptions metadata outputFormat stat s st s' :
  materialize B w input sharpOptions metadata outputFormat stat s = (Ok (Some (Ok st)), s') ->
  same_artifact stat st.
Proof.
  intros Hrun. pose proof (materialize_same _ _ _ _ _ _ _ _ Hrun) as H.
  unfold same_artifact in *. tauto.
Qed.

Lemma materialize_all_from_jobs input sharpOptions metadata jobs :
  forall s ps s',
    materialize_all B w input sharpOptions metadata jobs s = (Ok ps, s') ->
    forall st, In (Ok st) ps ->
      exists t st0, In (t, st0) jobs /\ same_artifact st0 st.
Proof.
  induction jobs as [|[outputFormat stat] jobs IH]; intros s ps s'; cbn [materialize_all].
  - unfold ret. intros [= <- _] st [].
  - unfold bind at 1.
    destruct (materialize B w input sharpOptions metadata outputFormat stat s)
      as [[p|e] s1] eqn:Hm; [|discriminate].
    unfold bind at 1.
    destruct (materialize_all B w input sharpOptions metadata jobs s1) as [[ps'|e] s2] eqn:Ha;
      [|discriminate].
    unfold ret. intros [= <- _] st Hin.
    assert (Hrest : In (Ok st) ps' -> exists t st0,
                      In (t, st0) ((outputFormat, stat) :: jobs) /\ same_artifact st0 st).
    { intros H. destruct (IH _ _ _ Ha st H) as (t & st0 & Hj & Hs).
      exists t, st0. split; [right; exact Hj|exact Hs]. }
    destruct p as [r|]; [|auto]. destruct Hin as [->|Hin]; [|auto].
    exists outputFormat, stat. split; [left; reflexivity|].
    eapply materialize_same, Hm.
Qed.

Lemma resize_from_plan input s p s' :
  resize B w input s = (Ok p, s') ->
  exists sharpOptions metadata full s0 s1,
    sharp_metadata w input sharpOptions = Ok metadata /\
    self s0 = self s /\
    getFullStats B w metadata s0 = (Ok full, s1) /\
    forall t g st, In (t, g) p -> In st g ->
      exists t0 g0 st0, In (t0, g0) full /\ In st0 g0 /\ same_artifact st0 st.
Proof.
  unfold resize. unfold bind at 1. unfold this at 1. cbn [self]. cbv zeta.
  unfold bind at 1. unfold emit at 1. cbn [self log].
  unfold bind at 1. unfold lift at 1.
  destruct (sharp_metadata w input _) as [metadata|e] eqn:Hmd; [|discriminate].
  unfold bind at 1.
  destruct (getFullStats B w metadata _) as [[full|e] s1] eqn:Hfull; [|discriminate].
  unfold bind at 1.
  destruct (materialize_all B w input _ (oriented metadata) (plan_jobs full) s1)
    as [[ps|e] s2] eqn:Hall; [|discriminate].
  unfold bind at 1. unfold lift at 1.
  destruct (Promise_all ps) as [files|e] eqn:Hfiles; [|discriminate].
  unfold ret. intros [= <- _].
  eexists _, metadata, full, _, s1. split; [exact Hmd|]. split; [|split; [exact Hfull|]].
  { reflexivity. }
  intros t g st Hg Hin.
  pose proof (transform_In _ _ _ _ _ _ Hg Hin) as Hfile.
  apply (Promise_all_In _ _ _ Hfiles) in Hfile.
  destruct (materialize_all_from_jobs _ _ _ _ _ _ _ Hall st Hfile) as (t0 & st0 & Hj & Hs).
  apply plan_jobs_In in Hj. destruct Hj as (g0 & Hg0 & Hst0).
  exists t0, g0, st0. auto.
Qed.

(** X21: [resize] returns only what [getFullStats] planned for the
    metadata that the codec reported: every entry of the plan it returns is,
    up to size and buffer, an entry of that plan. *)
Theorem X21_resize_returns_what_was_planned input s p s' :
  resize B w input s = (Ok p, s') ->
  exists sharpOptions metadata full s0 s1,
    sharp_metadata w input sharpOptions = Ok metadata /\
    self s0 = self s /\
    getFullStats B w metadata s0 = (Ok full, s1) /\
    forall t g st, In (t, g) p -> In st g ->
      exists t0 g0 st0, In (t0, g0) full /\ In st0 g0 /\ same_artifact st0 st.
Proof. apply resize_from_plan. Qed.

(** X22: a raster entry returned by [resize] has the height that keeps
    the aspect ratio of the source, rounded down (for a source of a width
    other than zero); and unless the source is an SVG with svgAllowUpscale,
    it is not wider than the source. *)
Theorem X22_resize_never_upscales_raster input s p s' t g st :
  resize B w input s = (Ok p, s') -> In (t, g) p -> In st g -> format st <> "svg" ->
  exists sharpOptions metadata,
    sharp_metadata w input sharpOptions = Ok metadata /\
    (m_width (oriented metadata) <> 0 ->
     height st = width st * m_height (oriented metadata) / m_width (oriented metadata)) /\
    (is_fmt (m_format metadata) "svg" && truthy (prop "svgAllowUpscale" (options (self s)))
     = false ->
     0 < width st <= m_width (oriented metadata)).
Proof.
  intros Hrun Hg Hin Hf.
  destruct (resize_from_plan _ _ _ _ Hrun)
    as (sharpOptions & metadata & full & s0 & s1 & Hmd & Hs0 & Hfull & Hall).
  destruct (Hall _ _ _ Hg Hin) as (t0 & g0 & st0 & Hg0 & Hst0 & Hsame).
  exists sharpOptions, metadata. split; [exact Hmd|].
  pose proof (getFullStats_planned _ _ _ _ _ _ _ _ _ Hfull Hg0 Hst0) as H.
  apply (planned_same_artifact _ _ _ _ Hsame) in H. rewrite Hs0 in H.
  unfold planned in H. apply String.eqb_neq in Hf. rewrite Hf in H.
  destruct H as (requested & threshold & _ & _ & Hw & Hh). split; [intros _; exact Hh|].
  intros Hup. rewrite oriented_format, Hup in Hw.
  eapply getValidWidths_clamped, Hw.
Qed.
End ResizeFacts.

Lemma X19_materialize_keeps_artifact_witness :
  exists st s',
    materialize sample_builtins (sample_world false) (SrcString "logo.svg")
      [("failOnError", VBool false)] sample_metadata "png" sample_planned_stat
      (mkState sample_image [])
    = (Ok (Some (Ok st)), s') /\
    same_artifact sample_planned_stat st.
Proof.
  do 2 eexists.
  match goal with
  | |- ?A /\ _ => assert (Ha : A) by (vm_compute; reflexivity)
  end.
  split; [exact Ha|].
  exact (X19_materialize_keeps_artifact sample_builtins (sample_world false) _ _ _ _ _ _ _ _ Ha).
Defined.

Lemma X20_existing_output_not_encoded_witness :
  exists evs,
    log (snd (materialize sample_builtins (sample_world true) (SrcString "logo.svg")
                [("failOnError", VBool false)] sample_metadata "png" sample_planned_stat
                (mkState sample_image [])))
    = log (mkState sample_image []) ++ evs /\
    forallb is_lookup evs = true.
Proof.
  apply (X20_existing_output_not_encoded sample_builtins (sample_world true)
           (SrcString "logo.svg") [("failOnError", VBool false)] sample_metadata "png"
           sample_planned_stat "img/logo-50.png" (mkState sample_image []));
    reflexivity.
Defined.

Lemma X21_resize_returns_what_was_planned_witness :
  exists p s',
    resize sample_builtins sample_photo_world (SrcString "photo.jpg") sample_photo_request
    = (Ok p, s') /\
    exists sharpOptions metadata full s0 s1,
      sharp_metadata sample_photo_world (SrcString "photo.jpg") sharpOptions = Ok metadata /\
      self s0 = self sample_photo_request /\
      getFullStats sample_builtins sample_photo_world metadata s0 = (Ok full, s1) /\
      forall t g st, In (t, g) p -> In st g ->
        exists t0 g0 st0, In (t0, g0) full /\ In st0 g0 /\ same_artifact st0 st.
Proof.
  do 2 eexists.
  match goal with
  | |- ?A /\ _ => assert (Ha : A) by (vm_compute; reflexivity)
  end.
  split; [exact Ha|].
  exact (X21_resize_returns_what_was_planned sample_builtins sample_photo_world _ _ _ _ Ha).
Defined.

Lemma X22_resize_never_upscales_raster_witness :
  exists p s' g st,
    resize sample_builtins sample_photo_world (SrcString "photo.jpg") sample_photo_request
    = (Ok p, s') /\
    In ("webp", g) p /\ In st g /\ format st <> "svg" /\ width st = 1000 /\
    exists sharpOptions metadata,
      sharp_metadata sample_photo_world (SrcString "photo.jpg") sharpOptions = Ok metadata /\
      (m_width (oriented metadata) <> 0 ->
       height st = width st * m_height (oriented metadata) / m_width (oriented metadata)) /\
      (is_fmt (m_format metadata) "svg"
       && truthy (prop "svgAllowUpscale" (options (self sample_photo_request))) = false ->
       0 < width st <= m_width (oriented metadata)).
Proof.
  do 4 eexists.
  match goal with
  | |- ?A /\ ?B /\ ?C /\ ?D /\ _ =>
      assert (Ha : A) by (vm_compute; reflexivity);
      assert (Hb : B) by (right; left; reflexivity);
      assert (Hc : C) by (right; left; reflexivity);
      assert (Hd : D) by discriminate
  end.
  repeat (split; [assumption|]). split; [reflexivity|].
  exact (X22_resize_never_upscales_raster sample_builtins sample_photo_world _ _ _ _ _ _ _
           Ha Hb Hc Hd).
Defined.

(** ** Groups of the plan, and the edges of the entry point *)

Lemma obj_set_keys_In {V : Type} k (v : V) t o :
  In t (obj_keys (obj_set k v o)) <-> t = k \/ In t (obj_keys o).
Proof.
  rewrite obj_set_keys. destruct (existsb (String.eqb k) (obj_keys o)) eqn:E.
  - apply (existsb_eqb_In _ String.eqb_eq) in E. split; [auto|]. intros [->|H]; assumption.
  - rewrite List.in_app_iff. simpl. intuition.
Qed.

Lemma init_groups_keys formats (byType : plan) t :
  In t (obj_keys (fold_left
    (fun byType fmt =>
       match fmt with
       | Some f =>
           if negb (String.eqb f "") && negb (String.eqb f "auto")
           then obj_set f [] byType else byType
       | None => byType
       end) formats byType)) <-> In t (obj_keys byType) \/ wanted formats t.
Proof.
  unfold wanted. revert byType. induction formats as [|fmt formats IH]; intros byType; simpl.
  - tauto.
  - rewrite IH. destruct fmt as [f|]; [|intuition discriminate].
    destruct (String.eqb f "") eqn:E1; cbn [negb andb].
    { apply String.eqb_eq in E1. subst f. intuition congruence. }
    destruct (String.eqb f "auto") eqn:E2; cbn [negb andb].
    { apply String.eqb_eq in E2. subst f. intuition congruence. }
    apply String.eqb_neq in E1, E2. rewrite obj_set_keys_In.
    split.
    + intros [[->|H]|H]; [right; auto|auto|tauto].
    + intros [H|([[= ->]|H] & H1 & H2)]; auto.
Qed.

Lemma fold_push_keys files (byType : plan) t :
  In t (obj_keys (fold_left push_file files byType)) <->
  In t (obj_keys byType) \/ exists e, In e files /\ format e = t.
Proof.
  revert byType. induction files as [|file files IH]; intros byType; simpl.
  - split; [auto|]. intros [H|(e & [] & _)]. exact H.
  - rewrite IH. unfold push_file. rewrite obj_set_keys_In. split.
    + intros [[->|H]|(e & He & Hf)]; eauto.
    + intros [H|(e & [<-|He] & Hf)]; eauto.
Qed.

Lemma transform_keys svgShortCircuit files formats :
  obj_keys (_transformRawFiles svgShortCircuit files formats)
  = obj_keys (fold_left push_file files (init_groups formats)).
Proof.
  unfold _transformRawFiles. rewrite <- (sort_groups_keys (fold_left _ _ _)).
  destruct (svg_entry_size _) as [[svg0 svgSize]|]; [|reflexivity].
  destruct (is_str svgShortCircuit "size"); [|reflexivity].
  unfold obj_keys. rewrite List.map_map. apply List.map_ext. intros [t g].
  destruct (String.eqb t "svg"); reflexivity.
Qed.

(** X23: the plan of [_transformRawFiles] has one group for every format
    asked for that is neither falsy nor "auto", even when no file has that
    format, one for the format of every file, and no other; no format has
    two groups. *)
Theorem X23_transformRawFiles_groups svgShortCircuit files formats :
  List.NoDup (obj_keys (_transformRawFiles svgShortCircuit files formats)) /\
  forall t, In t (obj_keys (_transformRawFiles svgShortCircuit files formats)) <->
            wanted formats t \/ exists e, In e files /\ format e = t.
Proof.
  rewrite transform_keys. split.
  - apply grouped_files.
  - intros t. rewrite fold_push_keys. unfold init_groups. rewrite init_groups_keys.
    simpl. tauto.
Qed.

(** X24: unless svgShortCircuit is "size", [_transformRawFiles] loses no
    file and invents none: the files are exactly the entries of the groups,
    each file in the group of its own format. *)
Theorem X24_transformRawFiles_keeps_files svgShortCircuit files formats e :
  is_str svgShortCircuit "size" = false ->
  In e files <->
  exists g, In (format e, g) (_transformRawFiles svgShortCircuit files formats) /\ In e g.
Proof.
  intros Hsize. split.
  - intros He. rewrite (transform_plain _ _ _ Hsize).
    destruct (grouped_files files formats) as (Hnd & Hg & Hk).
    set (b := fold_left push_file files (init_groups formats)) in *.
    pose proof (Hk e He) as Hkey. apply List.in_map_iff in Hkey.
    destruct Hkey as ([t g0] & Ht & Hin). cbn [fst] in Ht. subst t.
    exists (js_sort width_cmp g0). split.
    + unfold sort_groups. apply List.in_map_iff. exists (format e, g0). auto.
    + rewrite js_sort_In, (Hg _ _ Hin). apply List.filter_In. split; [exact He|].
      apply String.eqb_refl.
  - intros (g & Hg & Hin). eapply transform_In; eassumption.
Qed.

Section EdgeFacts.
Variable B : Builtins.
Variable w : World.

(** X25: with useCache set, [queueImage] on a local path that cannot be
    read throws at once, when it computes the signature: it returns no
    promise, puts no job on the queue and leaves the in-memory cache as it
    is. *)
Theorem X25_missing_file_throws_at_once memCache p opts img :
  new_Image B (SrcString p) opts = Ok img ->
  truthy (prop "useCache" (options img)) = true ->
  Util_isRemoteUrl B p = false -> fs_statSync_size w p = None ->
  queueImage B w memCache (SrcString p) opts
  = mkQueued (Throw (EFileSystem p)) memCache [EvStat p] false.
Proof.
  intros N Hu Hr Hs. apply (queueImage_no_key B w memCache _ _ img); [exact N|exact Hu|].
  rewrite (new_Image_Ok _ _ _ _ N).
  unfold on, getInMemoryCacheKey, bind, this, emit, throw.
  cbn [self log src isRemoteUrl is_remote fst snd]. rewrite Hr. cbn [self log fst snd].
  rewrite Hs. reflexivity.
Qed.

(** X26: with statsOnly and a remote URL, when remoteImageMetadata, its
    width or its height is missing, the job of [queueImage] is rejected
    with the error that asks for them, and the call has made no outside
    call but look-ups on the file system: nothing is fetched. *)
Theorem X26_statsOnly_remote_needs_metadata memCache u o :
  truthy (prop "statsOnly" o) = true -> Util_isRemoteUrl B u = true ->
  truthy (prop "remoteImageMetadata" o)
  && truthy (member (prop "remoteImageMetadata" o) "width")
  && truthy (member (prop "remoteImageMetadata" o) "height") = false ->
  job_ran (queueImage B w memCache (SrcString u) (Some o)) = true ->
  returned (queueImage B w memCache (SrcString u) (Some o)) = Ok (Throw ERemoteMetadata) /\
  forallb is_fs_probe (events (queueImage B w memCache (SrcString u) (Some o))) = true.
Proof.
  intros Hso Hr Hmd Hran.
  destruct (new_Image B (SrcString u) (Some o)) as [img|e] eqn:N.
  2:{ rewrite (queueImage_no_image B w memCache _ _ e N) in Hran. discriminate. }
  assert (Hjob : on img (job B w (SrcString u) (Some o)) = (Throw ERemoteMetadata, [])).
  { unfold on, job. rewrite Hso, Hr.
    destruct (truthy (prop "remoteImageMetadata" o)); [|reflexivity].
    destruct (truthy (member (prop "remoteImageMetadata" o) "width")); [|reflexivity].
    destruct (truthy (member (prop "remoteImageMetadata" o) "height")); [discriminate|].
    reflexivity. }
  split.
  - rewrite (queueImage_ran B w memCache _ _ img N Hran), Hjob. reflexivity.
  - revert Hran. unfold queueImage. rewrite N.
    pose proof (only_on is_fs_probe _ img (only_getInMemoryCacheKey B w)) as Hk.
    destruct (truthy (prop "useCache" (options img))).
    + destruct (on img (getInMemoryCacheKey B w)) as [[key|e] evs]; cbn [fst snd] in *;
        [|discriminate].
      destruct (MemoryCache_get key memCache); [discriminate|]. intros _. cbn [events].
      rewrite Hjob. cbn [snd]. rewrite List.app_nil_r. exact Hk.
    + cbn [fst snd events]. intros _. rewrite Hjob. reflexivity.
Qed.

(** X27: [queueImage] never replaces or removes an entry of the in-memory
    cache: what is cached under a signature before a call is cached under
    it after the call. *)
Theorem X27_cache_entries_stay memCache src0 opts key cached :
  memCache !! key = Some cached ->
  cache_after (queueImage B w memCache src0 opts) !! key = Some cached.
Proof.
  intros Hc. unfold queueImage.
  destruct (new_Image B src0 opts) as [img|e]; [|exact Hc].
  destruct (fst _) as [k|e]; [|exact Hc].
  destruct (truthy (prop "useCache" (options img))); cbn [cache_after].
  - unfold MemoryCache_get, MemoryCache_add.
    destruct (memCache !! k) as [c|] eqn:L; [exact Hc|]. cbn [cache_after].
    rewrite lookup_insert_ne; [exact Hc|]. intros ->. congruence.
  - exact Hc.
Qed.
End EdgeFacts.

Lemma X24_transformRawFiles_keeps_files_witness :
  In (sample_stat "png" 200 (Some 500)) sample_files <->
  exists g, In (format (sample_stat "png" 200 (Some 500)), g)
               (_transformRawFiles (VBool false) sample_files sample_formats) /\
            In (sample_stat "png" 200 (Some 500)) g.
Proof.
  apply (X24_transformRawFiles_keeps_files (VBool false) sample_files sample_formats).
  reflexivity.
Defined.

Lemma X25_missing_file_throws_at_once_witness :
  queueImage sample_builtins (sample_world false) empty_cache (SrcString "missing.png") None
  = mkQueued (Throw (EFileSystem "missing.png")) empty_cache [EvStat "missing.png"] false.
Proof.
  apply (X25_missing_file_throws_at_once sample_builtins (sample_world false) empty_cache
           "missing.png" None (image_of (SrcString "missing.png") None));
    reflexivity.
Defined.

Lemma X26_statsOnly_remote_needs_metadata_witness :
  returned (queueImage sample_builtins (sample_world false) empty_cache
              (SrcString "https://example.com/a.png") (Some [("statsOnly", VBool true)]))
  = Ok (Throw ERemoteMetadata) /\
  forallb is_fs_probe
    (events (queueImage sample_builtins (sample_world false) empty_cache
               (SrcString "https://example.com/a.png") (Some [("statsOnly", VBool true)])))
  = true.
Proof.
  apply (X26_statsOnly_remote_needs_metadata sample_builtins (sample_world false) empty_cache
           "https://example.com/a.png" [("statsOnly", VBool true)]);
    reflexivity.
Defined.

Lemma X27_cache_entries_stay_witness :
  cache_after (queueImage sample_builtins (sample_world false)
                 (<["earlier" := Ok []]> empty_cache)
                 (SrcString "logo.svg") None) !! "earlier"
  = Some (Ok []).
Proof.
  apply (X27_cache_entries_stay sample_builtins (sample_world false)
           (<["earlier" := Ok []]> empty_cache) (SrcString "logo.svg") None
           "earlier" (Ok [])).
  apply lookup_insert_eq.
Defined.

(** ** Plans ahead of the files *)

Section Framed.

Lemma framed_ret {A : Type} (a : A) : framed (ret a).
Proof. intros img l. unfold ret. cbn. rewrite List.app_nil_r. reflexivity. Qed.

Lemma framed_throw {A : Type} (e : error) : framed (@throw A e).
Proof. intros img l. unfold throw. cbn. rewrite List.app_nil_r. reflexivity. Qed.

Lemma framed_lift {A : Type} (r : result A) : framed (lift r).
Proof. intros img l. unfold lift. cbn. rewrite List.app_nil_r. reflexivity. Qed.

Lemma framed_this : framed this.
Proof. intros img l. unfold this. cbn. rewrite List.app_nil_r. reflexivity. Qed.

Lemma framed_set_this img0 : framed (set_this img0).
Proof. intros img l. unfold set_this. cbn. rewrite List.app_nil_r. reflexivity. Qed.

Lemma framed_emit e : framed (emit e).
Proof. intros img l. reflexivity. Qed.

Lemma framed_bind {A C : Type} (m : M A) (k : A -> M C) :
  framed m -> (forall a, framed (k a)) -> framed (bind m k).
Proof.
  intros Hm Hk img l. unfold bind. rewrite (Hm img l).
  destruct (m (mkState img [])) as [[a|e] [img1 l1]]; cbn [fst snd self log].
  - rewrite (Hk a img1 (l ++ l1)), (Hk a img1 l1).
    destruct (k a (mkState img1 [])) as [r [img2 l2]]. cbn [fst snd self log].
    rewrite List.app_assoc. reflexivity.
  - reflexivity.
Qed.

Lemma framed_mapM {A C : Type} (f : A -> M C) (l : list A) :
  (forall a, framed (f a)) -> framed (mapM f l).
Proof.
  intros Hf. induction l as [|x l IH]; simpl.
  - apply framed_ret.
  - apply framed_bind; [apply Hf|]. intros y.
    apply framed_bind; [apply IH|]. intros ys. apply framed_ret.
Qed.
End Framed.

Create HintDb framed discriminated.
#[local] Hint Resolve framed_ret framed_throw framed_lift framed_this framed_set_this
  framed_emit : framed.

Ltac framed_step :=
  match goal with
  | |- framed (bind _ _) => apply framed_bind; [|intros ?]
  | |- framed (mapM _ _) => apply framed_mapM; intros ?
  | |- framed _ => solve [auto with framed]
  | |- framed (match ?x with _ => _ end) => destruct x
  | |- framed (let _ := _ in _) => cbv zeta
  end.

Section FramedFacts.
Variable B : Builtins.
Variable w : World.

Lemma framed_getFileContents : framed (getFileContents w).
Proof. unfold getFileContents. repeat framed_step. Qed.
Hint Resolve framed_getFileContents : framed.

Lemma framed_computeHash : framed (computeHash B w).
Proof. unfold computeHash. repeat framed_step. Qed.
Hint Resolve framed_computeHash : framed.

Lemma framed_getHash : framed (getHash B w).
Proof. unfold getHash. repeat framed_step. Qed.
Hint Resolve framed_getHash : framed.

Lemma framed_getStat fmt width0 height0 : framed (getStat B w fmt width0 height0).
Proof. unfold getStat. repeat framed_step. Qed.
Hint Resolve framed_getStat : framed.

Lemma framed_fullStats_loop metadata outputFormats results :
  framed (fullStats_loop B w metadata outputFormats results).
Proof.
  revert results. induction outputFormats as [|outputFormat rest IH]; intros results;
    cbn [fullStats_loop]; repeat framed_step; apply IH.
Qed.
Hint Resolve framed_fullStats_loop : framed.

Lemma framed_getFullStats metadata : framed (getFullStats B w metadata).
Proof. unfold getFullStats. repeat framed_step. Qed.

Lemma getFullStats_any_log metadata s :
  fst (getFullStats B w metadata s) = fst (on (self s) (getFullStats B w metadata)).
Proof.
  destruct s as [img l]. rewrite (framed_getFullStats metadata img l). reflexivity.
Qed.

(** X28: [statsSync] tells where the files will end up. For a source that
    is not a remote URL, when the codec reports the dimensions and format
    that the dimension probe reports (no rotation, no page height, no
    size), every entry of a plan that the job of [queueImage] resolves to
    is, up to size and buffer, an entry of the plan that [statsSync]
    returns for the same source and options. *)
Theorem X28_statsSync_predicts_outputs src0 opts img width0 height0 type p :
  new_Image B src0 opts = Ok img -> is_remote B src0 = false ->
  getImageSize w src0 = Ok (width0, height0, type) ->
  (forall sharpOptions,
      sharp_metadata w src0 sharpOptions
      = Ok (mkMetadata width0 height0 type None None None)) ->
  fst (on img (job B w src0 opts)) = Ok p ->
  exists q,
    fst (statsSync B w src0 opts) = Ok q /\
    forall t g st, In (t, g) p -> In st g ->
      exists t0 g0 st0, In (t0, g0) q /\ In st0 g0 /\ same_artifact st0 st.
Proof.
  intros N Hlocal Hsize Hmd Hjob.
  assert (Hstats : fst (statsSync B w src0 opts)
                   = fst (on img (getFullStats B w
                                    (mkMetadata width0 height0 type None None None)))).
  { unfold statsSync. rewrite Hlocal, Hsize, N. reflexivity. }
  assert (Hresize : fst (on img (bind (getInput w) (resize B w))) = Ok p ->
            exists q,
              fst (statsSync B w src0 opts) = Ok q /\
              forall t g st, In (t, g) p -> In st g ->
                exists t0 g0 st0, In (t0, g0) q /\ In st0 g0 /\ same_artifact st0 st).
  { assert (Hr : isRemoteUrl img = false).
    { rewrite (new_Image_Ok _ _ _ _ N). exact Hlocal. }
    assert (Hsrc : src img = src0).
    { rewrite (new_Image_Ok _ _ _ _ N). reflexivity. }
    unfold on. cbn [fst]. unfold bind at 1, getInput at 1. unfold bind at 1. unfold this at 1.
    cbn [self]. rewrite Hr, Hsrc. unfold ret at 1.
    destruct (resize B w src0 (mkState img [])) as [r s'] eqn:R. cbn [fst]. intros ->.
    destruct (resize_from_plan _ _ _ _ _ _ R)
      as (sharpOptions & metadata & full & s0 & s1 & Hm & Hs0 & Hfull & Hall).
    rewrite Hmd in Hm. injection Hm as <-.
    exists full. split; [|exact Hall].
    cbn [self] in Hs0. rewrite Hstats, <- Hs0, <- getFullStats_any_log, Hfull. reflexivity. }
  assert (Hself : forall q, fst (statsSync B w src0 opts) = Ok q -> q = p ->
            exists q,
              fst (statsSync B w src0 opts) = Ok q /\
              forall t g st, In (t, g) p -> In st g ->
                exists t0 g0 st0, In (t0, g0) q /\ In st0 g0 /\ same_artifact st0 st).
  { intros q Hq ->. exists p. split; [exact Hq|]. intros t g st Hg Hin.
    exists t, g, st. auto using same_artifact_refl. }
  revert Hjob. unfold job. destruct src0 as [path|bytes]; [|exact Hresize].
  destruct opts as [o|]; [|exact Hresize].
  destruct (truthy (prop "statsOnly" o)); [|exact Hresize].
  cbn [is_remote] in Hlocal. rewrite Hlocal.
  unfold on. cbn [fst]. unfold bind at 1. unfold emit at 1. cbn [self log].
  unfold bind at 1. unfold lift at 1. rewrite Hsize. cbn [fst snd].
  rewrite getFullStats_any_log. cbn [self]. rewrite <- Hstats. intros Hq.
  apply (Hself p Hq). reflexivity.
Qed.
End FramedFacts.

Section QuietFacts.
Variable B : Builtins.
Variable w : World.
Variable o : obj.
Variable f : nat.
Hypothesis urlFormat_given : prop "urlFormat" o = VFun f.
Hypothesis statsOnly_set : truthy (prop "statsOnly" o) = true.

Lemma quiet_getStat fmt width0 height0 :
  keeps (has_options o) no_event (getStat B w fmt width0 height0).
Proof.
  unfold getStat. apply keeps_this_bind. intros img Hi. cbv zeta.
  rewrite (Hi : options img = o), urlFormat_given, statsOnly_set. cbn [negb].
  repeat keeps_step.
Qed.

Lemma quiet_fullStats_loop metadata outputFormats results :
  keeps (has_options o) no_event (fullStats_loop B w metadata outputFormats results).
Proof.
  pose proof quiet_getStat.
  revert results. induction outputFormats as [|outputFormat rest IH]; intros results;
    cbn [fullStats_loop]; repeat keeps_step; apply IH.
Qed.

Lemma quiet_getFullStats metadata : keeps (has_options o) no_event (getFullStats B w metadata).
Proof. pose proof quiet_fullStats_loop. unfold getFullStats. repeat keeps_step. Qed.
End QuietFacts.

Section QuietStats.
Variable B : Builtins.
Variable w : World.

(** X29: with statsOnly set and a urlFormat callback, [getFullStats] makes
    no outside call at all: no hash is computed, so the source is neither
    looked up nor read. *)
Theorem X29_statsOnly_urlFormat_touches_nothing metadata s f :
  prop "urlFormat" (options (self s)) = VFun f ->
  truthy (prop "statsOnly" (options (self s))) = true ->
  log (snd (getFullStats B w metadata s)) = log s.
Proof.
  intros Hurl Hso.
  destruct (quiet_getFullStats B w (options (self s)) f Hurl Hso metadata s Logic.eq_refl)
    as (_ & evs & Hl & Hp).
  destruct evs as [|e evs]; [|discriminate]. rewrite Hl. apply List.app_nil_r.
Qed.

(** X30: with dryRun set, no call of [queueImage] creates a file or a
    directory, whatever the source, the other options and the state of the
    in-memory cache. *)
Theorem X30_dryRun_never_writes memCache src0 opts img :
  new_Image B src0 opts = Ok img ->
  truthy (prop "dryRun" (options img)) = true ->
  existsb is_write (events (queueImage B w memCache src0 opts)) = false.
Proof. apply dryRun_writes_nothing. Qed.
End QuietStats.

Lemma X28_statsSync_predicts_outputs_witness :
  exists p,
    fst (on (image_of (SrcString "photo.jpg")
               (Some [("formats", VArr [VStr "webp"; VStr "svg"]);
                      ("widths", VArr [num 400; num 2000])]))
            (job sample_builtins sample_photo_world (SrcString "photo.jpg")
               (Some [("formats", VArr [VStr "webp"; VStr "svg"]);
                      ("widths", VArr [num 400; num 2000])]))) = Ok p /\
    exists q,
      fst (statsSync sample_builtins sample_photo_world (SrcString "photo.jpg")
             (Some [("formats", VArr [VStr "webp"; VStr "svg"]);
                    ("widths", VArr [num 400; num 2000])])) = Ok q /\
      forall t g st, In (t, g) p -> In st g ->
        exists t0 g0 st0, In (t0, g0) q /\ In st0 g0 /\ same_artifact st0 st.
Proof.
  eexists.
  match goal with
  | |- ?A /\ _ => assert (Ha : A) by (vm_compute; reflexivity)
  end.
  split; [exact Ha|].
  apply (X28_statsSync_predicts_outputs sample_builtins sample_photo_world
           (SrcString "photo.jpg") _ _ 1000 500 (Some "jpeg") _ Logic.eq_refl Logic.eq_refl
           Logic.eq_refl (fun _ => Logic.eq_refl) Ha).
Defined.

Lemma X29_statsOnly_urlFormat_touches_nothing_witness :
  log (snd (getFullStats sample_builtins sample_broken_world sample_photo_metadata
              sample_stats_request))
  = log sample_stats_request.
Proof.
  apply (X29_statsOnly_urlFormat_touches_nothing sample_builtins sample_broken_world
           sample_photo_metadata sample_stats_request 7);
    reflexivity.
Defined.

Lemma X30_dryRun_never_writes_witness :
  existsb is_write
    (events (queueImage sample_builtins (sample_world false) empty_cache
               (SrcString "logo.svg") (Some [("dryRun", VBool true)]))) = false.
Proof.
  apply (X30_dryRun_never_writes sample_builtins (sample_world false) empty_cache
           (SrcString "logo.svg") (Some [("dryRun", VBool true)])
           (image_of (SrcString "logo.svg") (Some [("dryRun", VBool true)])));
    reflexivity.
Defined.
